(** * VisionStream: the acquisition lifecycle of [backend/app.py]

    A shallow embedding of [open_capture] and [main] and the properties of
    the capture loop, the frame-rate window and the session teardown.

    Conventions of the embedding.
    - Python [int] is [Z]; Python [float] (timestamps, durations, rates) is
      idealised as the rationals [Q]: rounding is not modelled, but a
      division by zero raises, as it does in Python.
    - The platform (OpenCV, [time], the logger) is an environment that
      answers the program's calls.  Every call is numbered; the environment
      may answer any call by raising, and otherwise the call is appended to
      a trace of events.
    - Exceptions are values of [exn]; statements run in a state and
      exception monad that keeps the local variables as they were when an
      exception was raised, since [except] and [finally] read them. *)

From Stdlib Require Import ZArith QArith String List Lia Bool.
Import ListNotations.

Open Scope Z_scope.

(** ** Module constants (app.py, lines 11-20) *)

Definition RTSP_RETRY_ATTEMPTS : nat := 3.
Definition RTSP_RETRY_DELAY : Q := 2.
Definition FPS_FRAME_COUNT : nat := 60.
Definition CONSEC_FAIL_MAX : Z := 30.

Definition EXIT_OK : Z := 0.
Definition EXIT_INIT_FAIL : Z := 1.
Definition EXIT_RUNTIME_FAIL : Z := 2.

(** ** Exceptions, events and the world *)

(** The two classes the handlers of [main] tell apart.  [Exception] stands
    for any subclass of Python's [Exception] and carries its class name.
    The other direct subclasses of [BaseException] ([SystemExit],
    [GeneratorExit]) are raised by no call that the program makes and are
    left out. *)
Inductive exn : Type :=
| KeyboardInterrupt
| Exception (name : string).

Inductive level : Type := DEBUG | INFO | ERROR.

(** One constructor per logging call site, with the values it formats. *)
Inductive message : Type :=
| MsgFilePathRequired
| MsgRtspUrlRequired
| MsgRtspAttempt (attempt : nat)
| MsgRtspRetry
| MsgRtspAllFailed
| MsgInvalidSource
| MsgFailedToConnect (source : string)
| MsgTipsFile
| MsgTipsRtsp
| MsgTipsWebcam
| MsgConnected (source : string) (path : option string)
| MsgResolution (width height : Z)
| MsgUnableToStart
| MsgRunning
| MsgEndOfFile
| MsgReadFailures
| MsgFrame (frame_count w h : Z) (fps : Q)
| MsgQuitKey
| MsgWindowClosed
| MsgInterrupt
| MsgUnexpected (e : exn)
| MsgClosed (frames : Z) (duration avg_fps : Q).

(** Argument of [cv2.VideoCapture]: device index 0 or a path. *)
Inductive capture_arg : Type :=
| Device0
| Path (p : string).

(** A capture object is identified by the order of its creation. *)
Definition capture := nat.

(** The two properties [open_capture] asks a capture for. *)
Inductive cap_prop : Type :=
| CAP_PROP_FRAME_WIDTH
| CAP_PROP_FRAME_HEIGHT.

Inductive event : Type :=
| EvVideoCapture (arg : capture_arg) (c : capture)
| EvIsOpened (c : capture)
| EvRelease (c : capture)
| EvGet (c : capture) (prop : cap_prop)
| EvSleep (secs : Q)
| EvLog (lvl : level) (msg : message)
| EvNamedWindow
| EvPerfCounter (now : Q)
| EvRead (c : capture) (ret : bool)
| EvDrawText
| EvShape
| EvDrawBbox (x1 y1 x2 y2 : Z)
| EvDrawFps (fps : Q)
| EvImshow
| EvWaitKey (key : Z)
| EvGetWindowProperty (v : Q)
| EvDestroyAllWindows.

(** [faults] says which numbered call of the current phase raises, [tick]
    numbers the calls of the phase, [captures] counts the capture objects
    created, [trace] lists the completed calls, oldest first. *)
Record World : Type := mkWorld {
  faults : nat -> option exn;
  tick : nat;
  captures : nat;
  trace : list event
}.

Definition no_faults : nat -> option exn := fun _ => None.

(** A new phase (one call of [open_capture], one loop iteration, the
    teardown) brings its own faults and numbers its calls from 0. *)
Definition enter (f : nat -> option exn) (w : World) : World :=
  mkWorld f 0 (captures w) (trace w).

Definition world0 : World := mkWorld no_faults 0 0 [].

(** ** The state and exception monad *)

Inductive Res (A : Type) : Type :=
| Val (a : A)
| Exc (e : exn).
Arguments Val {A} a.
Arguments Exc {A} e.

Definition M (S A : Type) : Type := S -> World -> Res A * S * World.

Definition ret {S A} (a : A) : M S A := fun s w => (Val a, s, w).

Definition raise {S A} (e : exn) : M S A := fun s w => (Exc e, s, w).

Definition bind {S A B} (m : M S A) (k : A -> M S B) : M S B :=
  fun s w =>
    match m s w with
    | (Val a, s', w') => k a s' w'
    | (Exc e, s', w') => (Exc e, s', w')
    end.

Declare Scope prog_scope.
Delimit Scope prog_scope with prog.
Notation "x <- m ;; k" := (bind m (fun x => k))
  (at level 61, m at next level, right associativity) : prog_scope.
Notation "m ;; k" := (bind m (fun _ => k))
  (at level 61, right associativity) : prog_scope.
Notation "' pat <- m ;; k" := (bind m (fun x => match x with pat => k end))
  (at level 61, pat pattern, m at next level, right associativity) : prog_scope.
Open Scope prog_scope.

Definition get {S} : M S S := fun s w => (Val s, s, w).
Definition put {S} (s : S) : M S unit := fun _ w => (Val tt, s, w).
Definition modify {S} (f : S -> S) : M S unit := fun s w => (Val tt, f s, w).

(** The next call number, consumed whether the call returns or raises. *)
Definition next_call (w : World) : World :=
  mkWorld (faults w) (Datatypes.S (tick w)) (captures w) (trace w).

Definition record (ev : event) (w : World) : World :=
  mkWorld (faults w) (tick w) (captures w) (trace w ++ [ev]).

(** A call into the platform: it raises if the environment says so for
    this call number, and otherwise completes and is recorded.  The event
    is computed from the call number, so that answers can depend on it. *)
Definition call {S} (ev : nat -> event) : M S nat :=
  fun s w =>
    match faults w (tick w) with
    | Some e => (Exc e, s, next_call w)
    | None => (Val (tick w), s, next_call (record (ev (tick w)) w))
    end.

Definition call_ {S} (ev : event) : M S unit :=
  call (fun _ => ev) ;; ret tt.

Definition log {S} (lvl : level) (msg : message) : M S unit :=
  call_ (EvLog lvl msg).

Definition sleep {S} (secs : Q) : M S unit :=
  call_ (EvSleep secs).

(** ** Python arithmetic on the idealised floats *)

Definition Qltb (x y : Q) : bool := negb (Qle_bool y x).

(** [x / y] on floats: [ZeroDivisionError] when [y] is zero. *)
Definition py_div {S} (x y : Q) : M S Q :=
  if Qeq_bool y 0 then raise (Exception "ZeroDivisionError")
  else ret (x / y)%Q.

(** [int(x)] truncates towards zero. *)
Definition py_int (x : Q) : Z := Z.quot (Qnum x) (Zpos (Qden x)).

(** [sum(xs)] starts from the integer 0. *)
Definition py_sum (xs : list Q) : Q := fold_left Qplus xs 0%Q.

(** ** [collections.deque(maxlen=n)]: append on the right, then drop the
    leftmost element if the bound is exceeded. *)
Definition deque_append (maxlen : nat) (d : list Q) (x : Q) : list Q :=
  let d' := d ++ [x] in
  if (maxlen <? List.length d')%nat then tl d' else d'.

(** ** The frame-rate estimate (app.py, lines 158-162) *)

Definition estimate_fps {S} (frame_durations : list Q) : M S Q :=
  match frame_durations with
  | _ :: _ =>
      avg_duration <- py_div (py_sum frame_durations)
                             (inject_Z (Z.of_nat (List.length frame_durations))) ;;
      if Qltb 0 avg_duration then py_div 1 avg_duration else ret 0%Q
  | [] => ret 0%Q
  end.

(** ** Command-line arguments, as [parse_args] returns them *)

Record Args : Type := mkArgs {
  source : string;
  path : option string;
  log_level : string;
  show_fps : option bool
}.

(** [if not path]: [None] and the empty string are both falsy. *)
Definition nonempty (path : option string) : option string :=
  match path with
  | Some p => if (p =? "")%string then None else Some p
  | None => None
  end.

(** ** [open_capture] (app.py, lines 44-95) *)

(** The answers of the platform during [open_capture], by call number:
    whether the call raises, what [isOpened] says, what [get] returns. *)
Record OpenEnv : Type := mkOpenEnv {
  open_faults : nat -> option exn;
  is_opened : nat -> bool;
  get_prop : nat -> Q
}.

Definition new_capture (w : World) : World :=
  mkWorld (faults w) (tick w) (Datatypes.S (captures w)) (trace w).

(** [cv2.VideoCapture(arg)]: a new capture object, opened or not. *)
Definition video_capture {S} (arg : capture_arg) : M S capture :=
  fun s w =>
    match call (fun _ => EvVideoCapture arg (captures w)) s w with
    | (Val _, s', w') => (Val (captures w), s', new_capture w')
    | (Exc e, s', w') => (Exc e, s', w')
    end.

Definition cap_isOpened {S} (oe : OpenEnv) (c : capture) : M S bool :=
  n <- call (fun _ => EvIsOpened c) ;; ret (is_opened oe n).

Definition cap_release {S} (c : capture) : M S unit :=
  call_ (EvRelease c).

Definition cap_get {S} (oe : OpenEnv) (c : capture) (prop : cap_prop)
    : M S Q :=
  n <- call (fun _ => EvGet c prop) ;; ret (get_prop oe n).

(** Where a block of [open_capture] leaves control: at the statement after
    it, with the value of [cap], or out of the function by [return]. *)
Inductive flow : Type :=
| Next (cap : option capture)
| Return (r : option capture).

(** The [for attempt in range(1, RTSP_RETRY_ATTEMPTS + 1)] loop, lines
    60-73, on the attempts still to make. *)
Fixpoint rtsp_attempts {S} (oe : OpenEnv) (p : string) (attempts : list nat)
    (cap : option capture) : M S flow :=
  match attempts with
  | [] => ret (Next cap)
  | attempt :: rest =>
      log DEBUG (MsgRtspAttempt attempt) ;;
      c <- video_capture (Path p) ;;
      opened <- cap_isOpened oe c ;;
      if opened then ret (Next (Some c))
      else
        cap_release c ;;
        if (attempt <? RTSP_RETRY_ATTEMPTS)%nat then
          log DEBUG MsgRtspRetry ;;
          sleep RTSP_RETRY_DELAY ;;
          rtsp_attempts oe p rest (Some c)
        else
          log ERROR MsgRtspAllFailed ;;
          ret (Return None)
  end.

(** Lines 45-77: the choice of the source. *)
Definition select_capture {S} (oe : OpenEnv) (source : string)
    (path : option string) : M S flow :=
  if (source =? "webcam")%string then
    c <- video_capture Device0 ;; ret (Next (Some c))
  else if (source =? "file")%string then
    match nonempty path with
    | None => log ERROR MsgFilePathRequired ;; ret (Return None)
    | Some p => c <- video_capture (Path p) ;; ret (Next (Some c))
    end
  else if (source =? "rtsp")%string then
    match nonempty path with
    | None => log ERROR MsgRtspUrlRequired ;; ret (Return None)
    | Some p => rtsp_attempts oe p (seq 1 RTSP_RETRY_ATTEMPTS) None
    end
  else
    log ERROR MsgInvalidSource ;; ret (Return None).

(** Lines 80-88: the report of a failed connection. *)
Definition report_failure {S} (source : string) (path : option string)
    : M S (option capture) :=
  log ERROR (MsgFailedToConnect source) ;;
  match nonempty path with
  | Some _ =>
      (if (source =? "file")%string then log ERROR MsgTipsFile
       else if (source =? "rtsp")%string then log ERROR MsgTipsRtsp
       else ret tt)
  | None => log ERROR MsgTipsWebcam
  end ;;
  ret None.

Definition open_capture {S} (oe : OpenEnv) (source : string)
    (path : option string) : M S (option capture) :=
  sel <- select_capture oe source path ;;
  match sel with
  | Return r => ret r
  | Next None => report_failure source path
  | Next (Some c) =>
      opened <- cap_isOpened oe c ;;
      if negb opened then report_failure source path
      else
        width <- cap_get oe c CAP_PROP_FRAME_WIDTH ;;
        height <- cap_get oe c CAP_PROP_FRAME_HEIGHT ;;
        log INFO (MsgConnected source (nonempty path)) ;;
        log INFO (MsgResolution (py_int width) (py_int height)) ;;
        ret (Some c)
  end.

(** ** The local variables of [main] that the loop, the handlers and the
    [finally] block share (lines 114-120) *)

Record Vars : Type := mkVars {
  frame_durations : list Q;
  prev_time : Q;
  frame_count : Z;
  start_time : Q;
  consecutive_failures : Z;
  exit_code : Z
}.

Definition set_consecutive_failures (n : Z) (v : Vars) : Vars :=
  mkVars (frame_durations v) (prev_time v) (frame_count v) (start_time v)
         n (exit_code v).

Definition set_exit_code (c : Z) (v : Vars) : Vars :=
  mkVars (frame_durations v) (prev_time v) (frame_count v) (start_time v)
         (consecutive_failures v) c.

(** Lines 153-156: the duration since the previous delivered frame is
    appended to the window, the reference time moves to this frame and the
    frame is counted. *)
Definition observe_frame (curr_time : Q) (v : Vars) : Vars :=
  let frame_duration := (curr_time - prev_time v)%Q in
  mkVars (deque_append FPS_FRAME_COUNT (frame_durations v) frame_duration)
         curr_time (frame_count v + 1) (start_time v)
         (consecutive_failures v) (exit_code v).

(** ** One iteration of [while True] (lines 124-189) *)

(** The answers of the platform during one iteration. *)
Record IterEnv : Type := mkIterEnv {
  iter_faults : nat -> option exn;
  read_ret : bool;
  frame_shape : list Z;
  clock : Q;
  pressed : Z;
  visible : Q
}.

Inductive ctl : Type := Continue | Break.

Definition cap_read (cap : capture) (e : IterEnv) : M Vars bool :=
  call_ (EvRead cap (read_ret e)) ;; ret (read_ret e).

Definition perf_counter {S} (now : Q) : M S Q :=
  call_ (EvPerfCounter now) ;; ret now.

(** [h, w, _ = frame.shape] *)
Definition unpack_shape (e : IterEnv) : M Vars (Z * Z) :=
  call_ EvShape ;;
  match frame_shape e with
  | [h; w; _] => ret (h, w)
  | _ => raise (Exception "ValueError")
  end.

Definition wait_key (e : IterEnv) : M Vars Z :=
  call_ (EvWaitKey (pressed e)) ;; ret (pressed e).

Definition get_window_property (e : IterEnv) : M Vars Q :=
  call_ (EvGetWindowProperty (visible e)) ;; ret (visible e).

Definition ord_q : Z := 113.

Definition loop_body (args : Args) (show : bool) (cap : capture)
    (e : IterEnv) : M Vars ctl :=
  ok <- cap_read cap e ;;
  if negb ok then
    modify (fun v => set_consecutive_failures (consecutive_failures v + 1) v) ;;
    if (source args =? "file")%string then
      log INFO MsgEndOfFile ;;
      modify (set_exit_code EXIT_OK) ;;
      ret Break
    else
      v <- get ;;
      if CONSEC_FAIL_MAX <=? consecutive_failures v then
        log ERROR MsgReadFailures ;;
        modify (set_exit_code EXIT_RUNTIME_FAIL) ;;
        ret Break
      else
        sleep 0.02 ;;
        ret Continue
  else
    modify (set_consecutive_failures 0) ;;
    curr_time <- perf_counter (clock e) ;;
    modify (observe_frame curr_time) ;;
    v <- get ;;
    fps <- estimate_fps (frame_durations v) ;;
    call_ EvDrawText ;;
    '(h, w) <- unpack_shape e ;;
    let cx := w / 2 in
    let cy := h / 2 in
    let bbox_size := 100 in
    call_ (EvDrawBbox (cx - bbox_size) (cy - bbox_size)
                      (cx + bbox_size) (cy + bbox_size)) ;;
    (if show then call_ (EvDrawFps fps) else ret tt) ;;
    (if (log_level args =? "DEBUG")%string
        && (frame_count v mod Z.of_nat FPS_FRAME_COUNT =? 0)
     then log DEBUG (MsgFrame (frame_count v) w h fps) else ret tt) ;;
    call_ EvImshow ;;
    k <- wait_key e ;;
    let key := Z.land k 255 in
    if key =? ord_q then
      log INFO MsgQuitKey ;;
      modify (set_exit_code EXIT_OK) ;;
      ret Break
    else
      vis <- get_window_property e ;;
      if Qltb vis 1 then
        log INFO MsgWindowClosed ;;
        modify (set_exit_code EXIT_OK) ;;
        ret Break
      else ret Continue.

(** ** The loop (lines 123-189) *)

(** How far the loop has come on a finite script of iterations: still
    running when the script is used up, left by [break], or left by an
    exception raised in the body. *)
Inductive outcome : Type :=
| Running (v : Vars) (w : World)
| Broke (v : Vars) (w : World)
| Raised (e : exn) (v : Vars) (w : World).

Fixpoint while_true (args : Args) (show : bool) (cap : capture)
    (script : list IterEnv) (v : Vars) (w : World) : outcome :=
  match script with
  | [] => Running v w
  | e :: rest =>
      match loop_body args show cap e v (enter (iter_faults e) w) with
      | (Val Continue, v', w') => while_true args show cap rest v' w'
      | (Val Break, v', w') => Broke v' w'
      | (Exc x, v', w') => Raised x v' w'
      end
  end.

(** ** The handlers and the [finally] block (lines 191-207) *)

Record FinEnv : Type := mkFinEnv {
  fin_faults : nat -> option exn;
  fin_clock : Q
}.

(** The [except] clauses, on the way the [try] block was left. *)
Definition handlers (left : Res unit) : M Vars unit :=
  match left with
  | Val _ => ret tt
  | Exc KeyboardInterrupt =>
      log INFO MsgInterrupt ;;
      modify (set_exit_code EXIT_OK)
  | Exc (Exception name) =>
      log ERROR (MsgUnexpected (Exception name)) ;;
      modify (set_exit_code EXIT_RUNTIME_FAIL)
  end.

(** The [finally] block; its value is the argument of [sys.exit]. *)
Definition finally_block (cap : option capture) (fe : FinEnv) : M Vars Z :=
  match cap with
  | Some c => cap_release c
  | None => ret tt
  end ;;
  call_ EvDestroyAllWindows ;;
  now <- perf_counter (fin_clock fe) ;;
  v <- get ;;
  let total_time := (now - start_time v)%Q in
  avg_fps <- (if Qltb 0 total_time
              then py_div (inject_Z (frame_count v)) total_time
              else ret 0%Q) ;;
  log INFO (MsgClosed (frame_count v) total_time avg_fps) ;;
  ret (exit_code v).

(** How the process ends. *)
Inductive proc : Type :=
| Exited (code : Z)
| Uncaught (e : exn).

(** [try ... except ... finally]: the [finally] block runs whether or not
    a handler ran and whether or not the handler itself raised; its
    [sys.exit] replaces an exception still in flight, and an exception
    raised by the [finally] block itself leaves [main]. *)
Definition teardown (cap : option capture) (fe : FinEnv) (left : Res unit)
    (v : Vars) (w : World) : proc * Vars * World :=
  let '(_, v1, w1) := handlers left v (enter (fin_faults fe) w) in
  match finally_block cap fe v1 w1 with
  | (Val code, v2, w2) => (Exited code, v2, w2)
  | (Exc e, v2, w2) => (Uncaught e, v2, w2)
  end.

(** ** The start of the session (lines 104-120) *)

Record StartEnv : Type := mkStartEnv {
  start_faults : nat -> option exn;
  start_clock : Q
}.

(** Lines 111-120: the window, and the initial values of the variables. *)
Definition startup (se : StartEnv) : M unit Vars :=
  call_ EvNamedWindow ;;
  log INFO MsgRunning ;;
  prev <- perf_counter (start_clock se) ;;
  ret (mkVars [] prev 0 prev 0 EXIT_OK).

Record Env : Type := mkEnv {
  open_env : OpenEnv;
  start_env : StartEnv;
  script : list IterEnv;
  fin_env : FinEnv
}.

(** Lines 104-109: the capture, or the exit with [EXIT_INIT_FAIL]. *)
Definition acquire (args : Args) (oe : OpenEnv) : M unit (Z + capture) :=
  cap <- open_capture oe (source args) (path args) ;;
  match cap with
  | None => log ERROR MsgUnableToStart ;; ret (inl EXIT_INIT_FAIL)
  | Some c => ret (inr c)
  end.

(** The flag of the overlay as [main] resolves it (line 104). *)
Definition resolved_show (args : Args) : bool :=
  match show_fps args with
  | Some b => b
  | None => true
  end.

(** ** [parse_args] (lines 23-41)

    [argparse] is a library outside the repository; what is embedded is
    the parser that lines 24-39 declare.  The command line is taken as
    [argparse] splits it: the occurrences of the declared options, in
    order, with abbreviations and the [--option=value] spelling already
    resolved.  An argument that matches no declared option is
    [TUnrecognized].  Command lines that cannot be split this way (an
    option without its value, an ambiguous abbreviation) are outside the
    model. *)
Inductive token : Type :=
| TSource (value : string)
| TPath (value : string)
| TLogLevel (value : string)
| TShowFps
| TNoFps
| THelp
| TUnrecognized (arg : string).

(** The namespace while the command line is read: the values so far,
    which flag of the exclusive group was met, and whether an
    unrecognised argument was. *)
Record Namespace : Type := mkNamespace {
  ns_source : string;
  ns_path : option string;
  ns_log_level : string;
  ns_show_fps : bool;
  seen_show_fps : bool;
  seen_no_fps : bool;
  seen_unrecognized : bool
}.

(** The defaults of lines 26, 27, 30 and 39. *)
Definition defaults : Namespace :=
  mkNamespace "webcam" None "INFO" true false false false.

Definition source_choices : list string :=
  ["webcam"; "file"; "rtsp"]%string.

Definition log_level_choices : list string := ["DEBUG"; "INFO"]%string.

Definition member (s : string) (choices : list string) : bool :=
  existsb (String.eqb s) choices.

(** How [parse_args] ends: with the namespace, or by the [SystemExit]
    of [argparse] (status 2 after [parser.error], 0 after the help). *)
Inductive parsed : Type :=
| Parsed (args : Args)
| ParseExit (status : Z).

(** The options are handled in the order they are met.  A value outside
    the [choices] of its option, and the second flag of the exclusive
    group, end the parse at once with status 2; the help ends it with
    status 0; unrecognised arguments are reported when the whole command
    line has been read. *)
Fixpoint parse_tokens (argv : list token) (ns : Namespace) : parsed :=
  match argv with
  | [] =>
      if seen_unrecognized ns then ParseExit 2
      else Parsed (mkArgs (ns_source ns) (ns_path ns) (ns_log_level ns)
                          (Some (ns_show_fps ns)))
  | TSource value :: rest =>
      if member value source_choices then
        parse_tokens rest
          (mkNamespace value (ns_path ns) (ns_log_level ns) (ns_show_fps ns)
                       (seen_show_fps ns) (seen_no_fps ns)
                       (seen_unrecognized ns))
      else ParseExit 2
  | TPath value :: rest =>
      parse_tokens rest
        (mkNamespace (ns_source ns) (Some value) (ns_log_level ns)
                     (ns_show_fps ns) (seen_show_fps ns) (seen_no_fps ns)
                     (seen_unrecognized ns))
  | TLogLevel value :: rest =>
      if member value log_level_choices then
        parse_tokens rest
          (mkNamespace (ns_source ns) (ns_path ns) value (ns_show_fps ns)
                       (seen_show_fps ns) (seen_no_fps ns)
                       (seen_unrecognized ns))
      else ParseExit 2
  | TShowFps :: rest =>
      if seen_no_fps ns then ParseExit 2
      else
        parse_tokens rest
          (mkNamespace (ns_source ns) (ns_path ns) (ns_log_level ns) true
                       true (seen_no_fps ns) (seen_unrecognized ns))
  | TNoFps :: rest =>
      if seen_show_fps ns then ParseExit 2
      else
        parse_tokens rest
          (mkNamespace (ns_source ns) (ns_path ns) (ns_log_level ns) false
                       (seen_show_fps ns) true (seen_unrecognized ns))
  | THelp :: _ => ParseExit 0
  | TUnrecognized _ :: rest =>
      parse_tokens rest
        (mkNamespace (ns_source ns) (ns_path ns) (ns_log_level ns)
                     (ns_show_fps ns) (seen_show_fps ns) (seen_no_fps ns)
                     true)
  end.

Definition parse_args (argv : list token) : parsed :=
  parse_tokens argv defaults.

(** ** [setup_logger] (utils/logger_utils.py, lines 3-18) *)

(** [str.upper], on the ASCII letters. *)
Definition upper_ascii (c : Ascii.ascii) : Ascii.ascii :=
  let n := Ascii.nat_of_ascii c in
  if ((97 <=? n) && (n <=? 122))%nat then Ascii.ascii_of_nat (n - 32) else c.

Fixpoint upper (s : string) : string :=
  match s with
  | EmptyString => EmptyString
  | String c rest => String (upper_ascii c) (upper rest)
  end.

(** [getattr(logging, name, None)], as far as the test of line 10 can
    tell: the level names of the module with their numbers; no other
    attribute of the module equals 10 or 20. *)
Definition logging_level (name : string) : option Z :=
  if (name =? "CRITICAL")%string then Some 50
  else if (name =? "FATAL")%string then Some 50
  else if (name =? "ERROR")%string then Some 40
  else if (name =? "WARNING")%string then Some 30
  else if (name =? "WARN")%string then Some 30
  else if (name =? "INFO")%string then Some 20
  else if (name =? "DEBUG")%string then Some 10
  else if (name =? "NOTSET")%string then Some 0
  else None.

Definition logging_DEBUG : Z := 10.
Definition logging_INFO : Z := 20.

(** The level is looked up by its upper-cased name; anything but [DEBUG]
    and [INFO] raises [ValueError] before the logging is configured.  The
    value is the level that [basicConfig] is called with. *)
Definition setup_logger (level : string) : Res Z :=
  match logging_level (upper level) with
  | Some numeric_level =>
      if (numeric_level =? logging_DEBUG) || (numeric_level =? logging_INFO)
      then Val numeric_level
      else Exc (Exception "ValueError")
  | None => Exc (Exception "ValueError")
  end.

(** ** [main] (lines 98-207) *)

(** Lines 103-207: [main] from the point where the arguments are parsed
    and the logger is set up.  [None] is a run whose loop is still going
    when the script of the environment is used up. *)
Definition main_body (args : Args) (env : Env) : option proc * World :=
  let show := resolved_show args in
  match acquire args (open_env env) tt
          (enter (open_faults (open_env env)) world0) with
  | (Exc e, _, w) => (Some (Uncaught e), w)
  | (Val (inl code), _, w) => (Some (Exited code), w)
  | (Val (inr cap), _, w) =>
      match startup (start_env env) tt
              (enter (start_faults (start_env env)) w) with
      | (Exc e, _, w1) => (Some (Uncaught e), w1)
      | (Val v0, _, w1) =>
          match while_true args show cap (script env) v0 w1 with
          | Running _ w2 => (None, w2)
          | Broke v w2 =>
              let '(p, _, w3) := teardown (Some cap) (fin_env env) (Val tt) v w2
              in (Some p, w3)
          | Raised x v w2 =>
              let '(p, _, w3) := teardown (Some cap) (fin_env env) (Exc x) v w2
              in (Some p, w3)
          end
      end
  end.

(** A run of [main] on a command line, against an environment.  The exit
    of [argparse] and an exception of [setup_logger] (lines 99-100) lie
    outside the [try] block and end the process before anything is
    opened. *)
Definition main (argv : list token) (env : Env) : option proc * World :=
  match parse_args argv with
  | ParseExit status => (Some (Exited status), world0)
  | Parsed args =>
      match setup_logger (log_level args) with
      | Exc e => (Some (Uncaught e), world0)
      | Val _ => main_body args env
      end
  end.

(** ** The frame-rate estimator as the specification words it *)

Definition mean (window : list Q) : Q :=
  (py_sum window / inject_Z (Z.of_nat (List.length window)))%Q.

Definition spec_fps (window : list Q) : Q :=
  if Qlt_le_dec 0 (mean window) then (1 / mean window)%Q else 0%Q.

(** [observe]: append the duration, then estimate on the new window. *)
Definition observe (window : list Q) (duration : Q) : list Q * Res Q :=
  let window' := deque_append FPS_FRAME_COUNT window duration in
  match estimate_fps window' tt world0 with
  | (r, _, _) => (window', r)
  end.

(** The window after a sequence of appends, from the empty deque. *)
Definition feed (durations : list Q) : list Q :=
  fold_left (deque_append FPS_FRAME_COUNT) durations [].

(** ** Vocabulary of the statements *)

(** [wp m P s w]: running [m] from the variables [s] in the world [w]
    ends, by a value or by an exception, in a result that satisfies [P]. *)
Definition wp {S A} (m : M S A) (P : Res A -> S -> World -> Prop)
    (s : S) (w : World) : Prop :=
  let '(r, s', w') := m s w in P r s' w'.

(** No call of the phase raises. *)
Definition fault_free (f : nat -> option exn) : Prop :=
  forall k : nat, f k = None.

(** Events that neither create nor release a resource. *)
Definition quiet (ev : event) : bool :=
  match ev with
  | EvVideoCapture _ _ | EvRelease _ | EvDestroyAllWindows => false
  | _ => true
  end.

(** [tr'] is [tr] followed by quiet events only. *)
Definition extends (tr tr' : list event) : Prop :=
  exists evs : list event, tr' = tr ++ evs /\ forallb quiet evs = true.

(** An iteration whose read delivers nothing, and in which neither the
    read nor the call that follows it (the sleep, or the report before a
    [break]) raises. *)
Definition not_delivered (e : IterEnv) : Prop :=
  read_ret e = false /\
  iter_faults e 0%nat = None /\ iter_faults e 1%nat = None.

(** An iteration that delivers a frame of three dimensions, with no quit
    key, the window still visible, and in which nothing raises. *)
Definition delivered_plain (e : IterEnv) : Prop :=
  read_ret e = true /\ fault_free (iter_faults e) /\
  (exists h w c, frame_shape e = [h; w; c]) /\
  Z.land (pressed e) 255 <> ord_q /\ (1 <= visible e)%Q.

Definition vars_of (o : outcome) : Vars :=
  match o with
  | Running v _ | Broke v _ | Raised _ v _ => v
  end.

Definition world_of (o : outcome) : World :=
  match o with
  | Running _ w | Broke _ w | Raised _ _ w => w
  end.

(** The exit code the session ends with: the one the loop set before its
    [break], or the one the handler of the exception sets. *)
Definition terminal_code (o : outcome) : Z :=
  match o with
  | Raised KeyboardInterrupt _ _ => EXIT_OK
  | Raised (Exception _) _ _ => EXIT_RUNTIME_FAIL
  | Running v _ | Broke v _ => exit_code v
  end.

(** The events of the handler that runs for the way the loop was left. *)
Definition handler_events (o : outcome) : list event :=
  match o with
  | Raised KeyboardInterrupt _ _ => [EvLog INFO MsgInterrupt]
  | Raised (Exception name) _ _ => [EvLog ERROR (MsgUnexpected (Exception name))]
  | _ => []
  end.

(** The events of [k] iterations that each fail to read and back off. *)
Definition backoffs (cap : capture) (k : nat) : list event :=
  concat (repeat [EvRead cap false; EvSleep 0.02%Q] k).

(** The average rate of the session summary as the specification words
    it: frames / elapsed when elapsed is positive, 0 otherwise. *)
Definition average_fps (frames : Z) (elapsed : Q) : Q :=
  if Qlt_le_dec 0 elapsed then (inject_Z frames / elapsed)%Q else 0%Q.

(** The events of the [finally] block for the capture [c]. *)
Definition finally_events (c : capture) (fe : FinEnv) (v : Vars) : list event :=
  let elapsed := (fin_clock fe - start_time v)%Q in
  [EvRelease c; EvDestroyAllWindows; EvPerfCounter (fin_clock fe);
   EvLog INFO (MsgClosed (frame_count v) elapsed
                         (average_fps (frame_count v) elapsed))].

(** How often an event occurs in a trace. *)
Definition occurrences (p : event -> bool) (tr : list event) : nat :=
  length (filter p tr).

Definition is_release (c : capture) (ev : event) : bool :=
  match ev with
  | EvRelease c' => (c' =? c)%nat
  | _ => false
  end.

Definition is_destroy (ev : event) : bool :=
  match ev with
  | EvDestroyAllWindows => true
  | _ => false
  end.

(** The loop has ended, by [break] or by an exception. *)
Definition ended (o : outcome) : Prop :=
  match o with
  | Running _ _ => False
  | _ => True
  end.

(** ** Sample inputs *)

Definition webcam_args : Args := mkArgs "webcam" None "INFO" (Some true).
Definition file_args : Args := mkArgs "file" (Some "clip.mp4"%string) "INFO" (Some true).
Definition rtsp_args : Args :=
  mkArgs "rtsp" (Some "rtsp://camera/stream"%string) "INFO" (Some true).

(** An iteration whose read delivers nothing. *)
Definition failing_iter : IterEnv := mkIterEnv no_faults false [] 0 (-1) 1.

(** An iteration that delivers a 640x480 colour frame at time [t]; no key
    is pressed ([waitKey] returns -1) and the window is visible. *)
Definition good_iter (t : Q) : IterEnv :=
  mkIterEnv no_faults true [480; 640; 3] t (-1) 1.

(** An iteration that delivers a frame at time [t] during which the
    user presses [q]. *)
Definition quit_iter (t : Q) : IterEnv :=
  mkIterEnv no_faults true [480; 640; 3] t 113 1.

(** The variables as [startup] leaves them at time 0. *)
Definition vars0 : Vars := mkVars [] 0 0 0 0 EXIT_OK.

Definition calm_fin (t : Q) : FinEnv := mkFinEnv no_faults t.

(** A platform on which every capture opens and reports 640x480. *)
Definition calm_open : OpenEnv :=
  mkOpenEnv no_faults (fun _ => true)
            (fun n => if Nat.even n then 640%Q else 480%Q).

(** A session on a file of two frames, started at time 10 and torn down
    at time 20. *)
Definition two_frame_session : Env :=
  mkEnv calm_open (mkStartEnv no_faults 10)
        [good_iter 11; good_iter 12; failing_iter] (calm_fin 20).

(** An iteration in which call number [k] raises [x]. *)
Definition faulty_iter (k : nat) (x : exn) : IterEnv :=
  mkIterEnv (fun n => if (n =? k)%nat then Some x else None)
            true [480; 640; 3] 11 (-1) 1.

(** A session on the camera whose second iteration is hit by [x] at its
    call number [k]. *)
Definition struck_session (k : nat) (x : exn) : Env :=
  mkEnv calm_open (mkStartEnv no_faults 10)
        [good_iter 11; faulty_iter k x; good_iter 13] (calm_fin 20).

(** ** Vocabulary of the further properties *)

(** The counter of consecutive failures after an iteration, read off the
    outcome of its read. *)
Definition counter_step (c : Z) (e : IterEnv) : Z :=
  if read_ret e then 0 else c + 1.

(** The counter stays under the ceiling all along the script. *)
Fixpoint stays_below (c : Z) (script : list IterEnv) : Prop :=
  match script with
  | [] => True
  | e :: rest =>
      counter_step c e < CONSEC_FAIL_MAX /\ stays_below (counter_step c e) rest
  end.

(** The number of iterations of the script whose read delivers a frame. *)
Definition deliveries (script : list IterEnv) : Z :=
  Z.of_nat (length (filter read_ret script)).

(** An iteration that runs its course: it delivers a frame and nothing
    stops it, or it delivers nothing on a source that is not a file. *)
Definition steady (args : Args) (e : IterEnv) : Prop :=
  delivered_plain e \/
  (not_delivered e /\ (source args =? "file")%string = false).

Definition is_sleep (ev : event) : bool :=
  match ev with
  | EvSleep _ => true
  | _ => false
  end.

Definition is_open (ev : event) : bool :=
  match ev with
  | EvVideoCapture _ _ => true
  | _ => false
  end.

Definition is_any_release (ev : event) : bool :=
  match ev with
  | EvRelease _ => true
  | _ => false
  end.

Definition is_clock (ev : event) : bool :=
  match ev with
  | EvPerfCounter _ => true
  | _ => false
  end.

Definition is_imshow (ev : event) : bool :=
  match ev with
  | EvImshow => true
  | _ => false
  end.

Definition is_window_poll (ev : event) : bool :=
  match ev with
  | EvGetWindowProperty _ => true
  | _ => false
  end.

(** * Properties *)

(** ** The bounded window *)

Lemma deque_append_below (n : nat) (d : list Q) (x : Q) :
  (List.length d < n)%nat -> deque_append n d x = d ++ [x].
Proof.
  intros H. unfold deque_append.
  destruct (Nat.ltb_spec n (List.length (d ++ [x]))) as [L | L]; [ | reflexivity ].
  rewrite length_app in L. simpl in L. lia.
Qed.

Lemma deque_append_full (n : nat) (d : list Q) (x : Q) :
  List.length d = n -> deque_append n d x = tl (d ++ [x]).
Proof.
  intros H. unfold deque_append.
  destruct (Nat.ltb_spec n (List.length (d ++ [x]))) as [L | L]; [ reflexivity | ].
  rewrite length_app in L. simpl in L. lia.
Qed.

Lemma deque_append_length (n : nat) (d : list Q) (x : Q) :
  (List.length d <= n)%nat -> (List.length (deque_append n d x) <= n)%nat.
Proof.
  intros H. unfold deque_append.
  destruct (Nat.ltb_spec n (List.length (d ++ [x]))) as [L | L]; [ | exact L ].
  rewrite length_app in *. simpl in *.
  destruct d as [ | y d ]; simpl in *; [ lia | ].
  rewrite length_app. simpl. lia.
Qed.

Lemma feed_snoc (ds : list Q) (d : Q) :
  feed (ds ++ [d]) = deque_append FPS_FRAME_COUNT (feed ds) d.
Proof. unfold feed. rewrite fold_left_app. reflexivity. Qed.

Lemma feed_length (ds : list Q) :
  (List.length (feed ds) <= FPS_FRAME_COUNT)%nat.
Proof.
  induction ds as [ | d ds IH ] using rev_ind.
  - unfold feed, FPS_FRAME_COUNT. simpl. lia.
  - rewrite feed_snoc. apply deque_append_length. exact IH.
Qed.

Lemma deque_append_nonempty (n : nat) (d : list Q) (x : Q) :
  (0 < n)%nat -> deque_append n d x <> [].
Proof.
  intros Hn. unfold deque_append.
  destruct (Nat.ltb_spec n (List.length (d ++ [x]))) as [L | L].
  - rewrite length_app in L. simpl in L.
    destruct d as [ | y [ | z d ] ]; simpl in *; try lia; discriminate.
  - destruct d; discriminate.
Qed.

(** ** The estimator never divides by zero *)

Lemma Qltb_lt (x y : Q) : Qltb x y = true <-> (x < y)%Q.
Proof.
  unfold Qltb. rewrite negb_true_iff.
  split; intros H.
  - apply Qnot_le_lt. intros L. apply Qle_bool_iff in L. congruence.
  - destruct (Qle_bool y x) eqn:E; [ | reflexivity ].
    apply Qle_bool_iff in E. exfalso. exact (Qlt_not_le _ _ H E).
Qed.

Lemma py_div_nonzero {S} (x y : Q) (s : S) (w : World) :
  ~ (y == 0)%Q -> py_div x y s w = (Val (x / y)%Q, s, w).
Proof.
  intros H. unfold py_div.
  destruct (Qeq_bool y 0) eqn:E; [ | reflexivity ].
  apply Qeq_bool_iff in E. contradiction.
Qed.

Lemma length_nonzero_Q (A : Type) (a : A) (l : list A) :
  ~ (inject_Z (Z.of_nat (List.length (a :: l))) == 0)%Q.
Proof.
  unfold Qeq. simpl. lia.
Qed.

(** On a non-empty window the estimate is the value the specification
    gives, and the state and the world are untouched. *)
Lemma estimate_fps_nonempty {S} (d : list Q) (s : S) (w : World) :
  d <> [] -> estimate_fps d s w = (Val (spec_fps d), s, w).
Proof.
  intros Hd. destruct d as [ | a l ]; [ congruence | ].
  unfold estimate_fps, bind.
  rewrite (py_div_nonzero _ _ s w (length_nonzero_Q Q a l)).
  unfold spec_fps. fold (mean (a :: l)).
  destruct (Qlt_le_dec 0 (mean (a :: l))) as [L | L].
  - assert (E : Qltb 0 (mean (a :: l)) = true) by (apply Qltb_lt; exact L).
    rewrite E. apply py_div_nonzero.
    intros Z0. rewrite Z0 in L. exact (Qlt_irrefl 0 L).
  - destruct (Qltb 0 (mean (a :: l))) eqn:E; [ | reflexivity ].
    apply Qltb_lt in E. exfalso. exact (Qlt_not_le _ _ E L).
Qed.

(** ** A small program logic for the monad *)

Lemma extends_refl (tr : list event) : extends tr tr.
Proof. exists []. rewrite app_nil_r. split; reflexivity. Qed.

Lemma extends_snoc (tr tr' : list event) (ev : event) :
  extends tr tr' -> quiet ev = true -> extends tr (tr' ++ [ev]).
Proof.
  intros [evs [E Hq]] H. exists (evs ++ [ev]). subst tr'. split.
  - rewrite app_assoc. reflexivity.
  - rewrite forallb_app, Hq. simpl. rewrite H. reflexivity.
Qed.

Lemma extends_trans (tr1 tr2 tr3 : list event) :
  extends tr1 tr2 -> extends tr2 tr3 -> extends tr1 tr3.
Proof.
  intros [e1 [E1 Q1]] [e2 [E2 Q2]]. exists (e1 ++ e2). subst. split.
  - rewrite app_assoc. reflexivity.
  - rewrite forallb_app, Q1, Q2. reflexivity.
Qed.

Section Logic.
Context {S : Type}.

Lemma wp_result {A} (m : M S A) (s : S) (w : World) (x : Res A * S * World) :
  wp m (fun r s' w' => (r, s', w') = x) s w -> m s w = x.
Proof. unfold wp. destruct (m s w) as [[r s'] w']. intros H. exact H. Qed.

Lemma wp_elim {A} (m : M S A) P (s : S) (w : World) :
  wp m P s w -> P (fst (fst (m s w))) (snd (fst (m s w))) (snd (m s w)).
Proof. unfold wp. destruct (m s w) as [[r s'] w']. intros H. exact H. Qed.

Lemma wp_ret {A} (a : A) P (s : S) (w : World) :
  P (Val a) s w -> wp (ret a) P s w.
Proof. intros H. exact H. Qed.

Lemma wp_raise {A} (e : exn) (P : Res A -> S -> World -> Prop) s w :
  P (Exc e) s w -> wp (raise e) P s w.
Proof. intros H. exact H. Qed.

Lemma wp_bind {A B} (m : M S A) (k : A -> M S B) P s w :
  wp m (fun r s' w' =>
          match r with
          | Val a => wp (k a) P s' w'
          | Exc e => P (Exc e) s' w'
          end) s w ->
  wp (bind m k) P s w.
Proof.
  unfold wp, bind. destruct (m s w) as [[r s'] w'].
  destruct r; intros H; exact H.
Qed.

Lemma wp_get P (s : S) (w : World) : P (Val s) s w -> wp get P s w.
Proof. intros H. exact H. Qed.

Lemma wp_modify (f : S -> S) P (s : S) (w : World) :
  P (Val tt) (f s) w -> wp (modify f) P s w.
Proof. intros H. exact H. Qed.

Lemma wp_call (ev : nat -> event) P (s : S) (w : World) :
  (forall x, faults w (tick w) = Some x -> P (Exc x) s (next_call w)) ->
  (faults w (tick w) = None ->
   P (Val (tick w)) s (next_call (record (ev (tick w)) w))) ->
  wp (call ev) P s w.
Proof.
  intros H1 H2. unfold wp, call.
  destruct (faults w (tick w)) as [x | ] eqn:F.
  - apply H1. reflexivity.
  - apply H2. reflexivity.
Qed.

Lemma wp_call_ (ev : event) P (s : S) (w : World) :
  (forall x, faults w (tick w) = Some x -> P (Exc x) s (next_call w)) ->
  (faults w (tick w) = None -> P (Val tt) s (next_call (record ev w))) ->
  wp (call_ ev) P s w.
Proof.
  intros H1 H2. unfold call_. apply wp_bind. apply wp_call.
  - exact H1.
  - intros F. apply H2. exact F.
Qed.

Lemma wp_video_capture (arg : capture_arg) P (s : S) (w : World) :
  (forall x, faults w (tick w) = Some x -> P (Exc x) s (next_call w)) ->
  (faults w (tick w) = None ->
   P (Val (captures w)) s
     (new_capture (next_call (record (EvVideoCapture arg (captures w)) w)))) ->
  wp (video_capture arg) P s w.
Proof.
  intros H1 H2. unfold wp, video_capture, call.
  destruct (faults w (tick w)) as [x | ] eqn:F.
  - apply H1. reflexivity.
  - apply H2. reflexivity.
Qed.

Lemma wp_estimate (d : list Q) P (s : S) (w : World) :
  (forall fps : Q, P (Val fps) s w) -> wp (estimate_fps d) P s w.
Proof.
  intros H. unfold wp. destruct d as [ | a l ].
  - apply H.
  - rewrite estimate_fps_nonempty by discriminate. apply H.
Qed.

Lemma wp_py_div_nonzero (x y : Q) P (s : S) (w : World) :
  ~ (y == 0)%Q -> P (Val (x / y)%Q) s w -> wp (py_div x y) P s w.
Proof.
  intros Hy H. unfold wp. rewrite py_div_nonzero by exact Hy. exact H.
Qed.
End Logic.

Ltac wp_red :=
  cbv beta iota;
  cbn [faults tick captures trace next_call record enter new_capture] in *.

Ltac wp_step :=
  lazymatch goal with
  | |- wp (call_ _) _ _ _ => apply wp_call_; [ intros ? ? | intros ? ]
  | |- wp (call _) _ _ _ => apply wp_call; [ intros ? ? | intros ? ]
  | |- wp (video_capture _) _ _ _ =>
      apply wp_video_capture; [ intros ? ? | intros ? ]
  | |- wp (bind _ _) _ _ _ => apply wp_bind
  | |- wp (ret _) _ _ _ => apply wp_ret
  | |- wp (raise _) _ _ _ => apply wp_raise
  | |- wp get _ _ _ => apply wp_get
  | |- wp (modify _) _ _ _ => apply wp_modify
  | |- wp (estimate_fps _) _ _ _ => apply wp_estimate; intros ?
  | |- wp (py_div _ _) _ _ _ => apply wp_py_div_nonzero
  | |- wp (if ?b then _ else _) _ _ _ => destruct b eqn:?
  | |- wp (match ?x with _ => _ end) _ _ _ => destruct x eqn:?
  end.

Ltac wp_run := repeat (wp_red; wp_step); wp_red.

(** A call that raised although the phase is fault free. *)
Ltac no_fault :=
  match goal with
  | F : fault_free ?f, H : ?f _ = Some _ |- _ =>
      rewrite (F _) in H; discriminate H
  end.

Ltac unfold_body :=
  unfold loop_body, cap_read, perf_counter, unpack_shape, wait_key,
    get_window_property, log, sleep.

(** ** One iteration, whatever the environment answers *)

(** The start time is never written, the window stays within its bound,
    no capture is created or released and no window destroyed. *)
Lemma loop_body_keeps (args : Args) (show : bool) (cap : capture)
    (e : IterEnv) (v : Vars) (w : World) :
  wp (loop_body args show cap e)
     (fun _ v' w' =>
        start_time v' = start_time v /\
        ((length (frame_durations v) <= 60)%nat ->
         (length (frame_durations v') <= 60)%nat) /\
        extends (trace w) (trace w') /\
        captures w' = captures w)
     v (enter (iter_faults e) w).
Proof.
  unfold_body. wp_run.
  all: cbn [start_time frame_durations set_consecutive_failures
              set_exit_code observe_frame].
  all: split; [ reflexivity | ].
  all: split;
    [ try (intros; assumption);
      try (intros H'; apply deque_append_length; exact H') | ].
  all: split;
    [ repeat (apply extends_snoc; [ | reflexivity ]); apply extends_refl
    | reflexivity ].
Qed.

(** The counter of consecutive failures after an iteration whose read
    returned: 0 if a frame was delivered, one more than before if not,
    whatever happens in the rest of the iteration. *)
Lemma loop_body_counter (args : Args) (show : bool) (cap : capture)
    (e : IterEnv) (v : Vars) (w : World) :
  iter_faults e 0%nat = None ->
  wp (loop_body args show cap e)
     (fun _ v' _ =>
        consecutive_failures v' =
        if read_ret e then 0 else consecutive_failures v + 1)
     v (enter (iter_faults e) w).
Proof.
  intros R. unfold_body. wp_run.
  all: try congruence.
  all: cbn [consecutive_failures set_consecutive_failures set_exit_code
              observe_frame].
  all: match goal with
       | H : negb (read_ret ?i) = _ |- _ =>
           destruct (read_ret i); simpl in H; try discriminate H; reflexivity
       end.
Qed.

(** The reference time and the window change together, and only in an
    iteration that delivered a frame and read the clock. *)
Lemma loop_body_reference (args : Args) (show : bool) (cap : capture)
    (e : IterEnv) (v : Vars) (w : World) :
  wp (loop_body args show cap e)
     (fun _ v' _ =>
        (prev_time v' = prev_time v /\
         frame_durations v' = frame_durations v /\
         frame_count v' = frame_count v) \/
        (read_ret e = true /\
         prev_time v' = clock e /\
         frame_durations v' =
           deque_append FPS_FRAME_COUNT (frame_durations v)
                        (clock e - prev_time v)%Q /\
         frame_count v' = frame_count v + 1))
     v (enter (iter_faults e) w).
Proof.
  unfold_body. wp_run.
  all: cbn [prev_time frame_durations frame_count set_consecutive_failures
              set_exit_code observe_frame].
  all: try (left; repeat split; reflexivity).
  all: right; repeat split; try reflexivity.
  all: match goal with
       | H : negb (read_ret ?i) = false |- _ =>
           destruct (read_ret i); [ reflexivity | discriminate H ]
       end.
Qed.

(** The exit code on the way out of an iteration: unchanged unless the
    iteration breaks, and [EXIT_RUNTIME_FAIL] only at the ceiling of a
    source that is not a file. *)
Lemma loop_body_exit (args : Args) (show : bool) (cap : capture)
    (e : IterEnv) (v : Vars) (w : World) :
  wp (loop_body args show cap e)
     (fun r v' _ =>
        match r with
        | Val Break =>
            exit_code v' = EXIT_OK \/
            (exit_code v' = EXIT_RUNTIME_FAIL /\
             read_ret e = false /\
             (source args =? "file")%string = false /\
             CONSEC_FAIL_MAX <= consecutive_failures v + 1)
        | _ => exit_code v' = exit_code v
        end)
     v (enter (iter_faults e) w).
Proof.
  unfold_body. wp_run.
  all: cbn [exit_code consecutive_failures set_consecutive_failures
              set_exit_code observe_frame] in *.
  all: try reflexivity.
  all: try (left; reflexivity).
  right. repeat split; try reflexivity.
  - match goal with
    | H : negb (read_ret ?i) = true |- _ =>
        destruct (read_ret i); [ discriminate H | reflexivity ]
    end.
  - match goal with
    | H : (CONSEC_FAIL_MAX <=? _) = true |- _ => apply Z.leb_le in H; exact H
    end.
Qed.

(** ** One iteration, on the paths where nothing raises *)

Ltac leb_hyps :=
  repeat match goal with
         | H : (_ <=? _) = true |- _ => apply Z.leb_le in H
         | H : (_ <=? _) = false |- _ => apply Z.leb_gt in H
         end;
  cbn [consecutive_failures set_consecutive_failures] in *.

Ltac path_done :=
  try no_fault; try discriminate; try congruence;
  try (leb_hyps; lia);
  try (unfold next_call, record, enter, new_capture;
       cbn [faults tick captures trace];
       rewrite <- ?app_assoc; reflexivity).

(** A failed read below the ceiling, not on a file: count, sleep 20 ms,
    continue. *)
Lemma failed_read_backs_off (args : Args) (show : bool) (cap : capture)
    (e : IterEnv) (v : Vars) (w : World) :
  not_delivered e ->
  (source args =? "file")%string = false ->
  consecutive_failures v + 1 < CONSEC_FAIL_MAX ->
  loop_body args show cap e v (enter (iter_faults e) w) =
  (Val Continue,
   set_consecutive_failures (consecutive_failures v + 1) v,
   mkWorld (iter_faults e) 2 (captures w)
           (trace w ++ [EvRead cap false; EvSleep 0.02%Q])).
Proof.
  intros [Hr [Hf0 Hf1]] Hs Hc. apply wp_result.
  unfold_body. rewrite Hr, Hs. wp_run; path_done.
Qed.

(** A failed read that reaches the ceiling, not on a file: count, report,
    set [EXIT_RUNTIME_FAIL], break. *)
Lemma failed_read_at_ceiling (args : Args) (show : bool) (cap : capture)
    (e : IterEnv) (v : Vars) (w : World) :
  not_delivered e ->
  (source args =? "file")%string = false ->
  CONSEC_FAIL_MAX <= consecutive_failures v + 1 ->
  loop_body args show cap e v (enter (iter_faults e) w) =
  (Val Break,
   set_exit_code EXIT_RUNTIME_FAIL
     (set_consecutive_failures (consecutive_failures v + 1) v),
   mkWorld (iter_faults e) 2 (captures w)
           (trace w ++ [EvRead cap false; EvLog ERROR MsgReadFailures])).
Proof.
  intros [Hr [Hf0 Hf1]] Hs Hc. apply wp_result.
  unfold_body. rewrite Hr, Hs. wp_run; path_done.
Qed.

(** A failed read on a file: count, report the end of the file, set
    [EXIT_OK], break; the counter is not compared with anything. *)
Lemma failed_read_on_file (args : Args) (show : bool) (cap : capture)
    (e : IterEnv) (v : Vars) (w : World) :
  not_delivered e ->
  (source args =? "file")%string = true ->
  loop_body args show cap e v (enter (iter_faults e) w) =
  (Val Break,
   set_exit_code EXIT_OK
     (set_consecutive_failures (consecutive_failures v + 1) v),
   mkWorld (iter_faults e) 2 (captures w)
           (trace w ++ [EvRead cap false; EvLog INFO MsgEndOfFile])).
Proof.
  intros [Hr [Hf0 Hf1]] Hs. apply wp_result.
  unfold_body. rewrite Hr, Hs. wp_run; path_done.
Qed.

(** A delivered frame with no reason to stop: reset the counter, read the
    clock, record the duration, draw, show, poll, continue. *)
Lemma delivered_continues (args : Args) (show : bool) (cap : capture)
    (e : IterEnv) (v : Vars) (w : World) :
  delivered_plain e ->
  exists (w' : World) (evs : list event),
    loop_body args show cap e v (enter (iter_faults e) w) =
    (Val Continue, observe_frame (clock e) (set_consecutive_failures 0 v), w') /\
    trace w' = trace w ++ [EvRead cap true; EvPerfCounter (clock e)] ++ evs /\
    forallb quiet evs = true /\
    captures w' = captures w.
Proof.
  intros [Hr [Hf [[h [wd [c Hshape]]] [Hk Hv]]]].
  assert (V : Qltb (visible e) 1 = false).
  { destruct (Qltb (visible e) 1) eqn:E; [ | reflexivity ].
    apply Qltb_lt in E. exfalso. exact (Qlt_not_le _ _ E Hv). }
  assert (K : (Z.land (pressed e) 255 =? ord_q) = false)
    by (apply Z.eqb_neq; exact Hk).
  pose proof (wp_elim (loop_body args show cap e)
    (fun r v' w' =>
       r = Val Continue /\
       v' = observe_frame (clock e) (set_consecutive_failures 0 v) /\
       exists evs, trace w' =
                   trace w ++ [EvRead cap true; EvPerfCounter (clock e)] ++ evs /\
                   forallb quiet evs = true /\ captures w' = captures w)
    v (enter (iter_faults e) w)) as G.
  destruct (loop_body args show cap e v (enter (iter_faults e) w))
    as [[r v'] w'].
  cbn [fst snd] in G.
  destruct G as [G1 [G2 [evs [G3 [G4 G5]]]]].
  - unfold_body. rewrite Hr, Hshape. wp_run; path_done.
    all: split; [ reflexivity | split; [ reflexivity | ] ].
    all: eexists; repeat rewrite <- app_assoc; cbn [app];
      split; [ reflexivity | split; reflexivity ].
  - subst r v'. exists w', evs. repeat split; assumption.
Qed.

(** ** Runs of failed reads *)

Lemma set_consecutive_failures_same (v : Vars) :
  set_consecutive_failures (consecutive_failures v) v = v.
Proof. destruct v. reflexivity. Qed.

Lemma backoffs_succ (cap : capture) (k : nat) :
  backoffs cap (Datatypes.S k) =
  [EvRead cap false; EvSleep 0.02%Q] ++ backoffs cap k.
Proof. reflexivity. Qed.

(** Below the ceiling, a run of failed reads only counts and sleeps. *)
Lemma run_of_failures (args : Args) (show : bool) (cap : capture)
    (fails : list IterEnv) :
  forall (rest : list IterEnv) (v : Vars) (w : World),
    (source args =? "file")%string = false ->
    Forall not_delivered fails ->
    consecutive_failures v + Z.of_nat (length fails) < CONSEC_FAIL_MAX ->
    exists w' : World,
      while_true args show cap (fails ++ rest) v w =
      while_true args show cap rest
        (set_consecutive_failures
           (consecutive_failures v + Z.of_nat (length fails)) v) w' /\
      trace w' = trace w ++ backoffs cap (length fails) /\
      captures w' = captures w.
Proof.
  induction fails as [ | e fs IH ]; intros rest v w Hs Hall Hc.
  - exists w. cbn [app length Z.of_nat]. rewrite Z.add_0_r.
    rewrite set_consecutive_failures_same.
    unfold backoffs. cbn [repeat concat]. rewrite app_nil_r.
    repeat split; reflexivity.
  - inversion Hall as [ | e' fs' He Hfs ]; subst.
    cbn [length] in Hc. rewrite Nat2Z.inj_succ in Hc.
    cbn [app while_true].
    rewrite (failed_read_backs_off args show cap e v w He Hs) by lia.
    destruct (IH rest
                (set_consecutive_failures (consecutive_failures v + 1) v)
                (mkWorld (iter_faults e) 2 (captures w)
                         (trace w ++ [EvRead cap false; EvSleep 0.02%Q]))
                Hs Hfs) as [w' [E [T C]]].
    { cbn [consecutive_failures set_consecutive_failures]. lia. }
    exists w'. split; [ | split ].
    + rewrite E. cbn [consecutive_failures set_consecutive_failures length].
      rewrite Nat2Z.inj_succ.
      replace (consecutive_failures v + 1 + Z.of_nat (length fs))
        with (consecutive_failures v + Z.succ (Z.of_nat (length fs))) by lia.
      reflexivity.
    + rewrite T. cbn [trace length]. rewrite backoffs_succ.
      rewrite <- app_assoc. reflexivity.
    + rewrite C. reflexivity.
Qed.

(** The run of failed reads that brings the counter to the ceiling ends
    the loop with [EXIT_RUNTIME_FAIL]. *)
Lemma ceiling_reached (args : Args) (show : bool) (cap : capture)
    (fails rest : list IterEnv) (v : Vars) (w : World) :
  (source args =? "file")%string = false ->
  Forall not_delivered fails ->
  fails <> [] ->
  consecutive_failures v + Z.of_nat (length fails) = CONSEC_FAIL_MAX ->
  exists w' : World,
    while_true args show cap (fails ++ rest) v w =
    Broke (set_exit_code EXIT_RUNTIME_FAIL
             (set_consecutive_failures CONSEC_FAIL_MAX v)) w' /\
    trace w' = trace w ++ backoffs cap (length fails - 1)
                       ++ [EvRead cap false; EvLog ERROR MsgReadFailures] /\
    captures w' = captures w.
Proof.
  intros Hs Hall Hne Hc.
  destruct (exists_last Hne) as [fs [e E]]. subst fails.
  apply Forall_app in Hall. destruct Hall as [Hfs He].
  inversion He as [ | e' l' He' _ ]; subst.
  rewrite length_app in Hc. cbn [length] in Hc.
  rewrite <- app_assoc.
  destruct (run_of_failures args show cap fs ([e] ++ rest) v w Hs Hfs)
    as [w1 [E1 [T1 C1]]]; [ lia | ].
  rewrite E1. cbn [app while_true].
  rewrite (failed_read_at_ceiling args show cap e _ w1 He' Hs)
    by (cbn [consecutive_failures set_consecutive_failures]; lia).
  eexists. split; [ | split ].
  - cbn [consecutive_failures set_consecutive_failures].
    replace (consecutive_failures v + Z.of_nat (length fs) + 1)
      with CONSEC_FAIL_MAX by lia.
    reflexivity.
  - cbn [trace]. rewrite T1. rewrite length_app. cbn [length].
    replace (length fs + 1 - 1)%nat with (length fs) by lia.
    rewrite <- app_assoc. reflexivity.
  - cbn [captures]. exact C1.
Qed.

(** ** The handlers and the [finally] block, when nothing raises in them *)

Lemma handlers_run (left : Res unit) (v : Vars) (w : World) :
  fault_free (faults w) ->
  exists w' : World,
    handlers left v w =
    (Val tt,
     match left with
     | Val _ => v
     | Exc KeyboardInterrupt => set_exit_code EXIT_OK v
     | Exc (Exception _) => set_exit_code EXIT_RUNTIME_FAIL v
     end, w') /\
    faults w' = faults w /\
    captures w' = captures w /\
    trace w' = trace w ++
      match left with
      | Val _ => []
      | Exc KeyboardInterrupt => [EvLog INFO MsgInterrupt]
      | Exc (Exception name) => [EvLog ERROR (MsgUnexpected (Exception name))]
      end.
Proof.
  intros Hf.
  destruct left as [ [] | [ | name ] ].
  - exists w. rewrite app_nil_r. repeat split; reflexivity.
  - eexists. split; [ | split; [ | split ] ].
    + apply wp_result. unfold handlers, log. wp_run; path_done.
    + reflexivity.
    + reflexivity.
    + reflexivity.
  - eexists. split; [ | split; [ | split ] ].
    + apply wp_result. unfold handlers, log. wp_run; path_done.
    + reflexivity.
    + reflexivity.
    + reflexivity.
Qed.

Lemma Qltb_average (frames : Z) (elapsed : Q) :
  (if Qltb 0 elapsed then (inject_Z frames / elapsed)%Q else 0%Q) =
  average_fps frames elapsed.
Proof.
  unfold average_fps. destruct (Qlt_le_dec 0 elapsed) as [L | L].
  - apply Qltb_lt in L. rewrite L. reflexivity.
  - destruct (Qltb 0 elapsed) eqn:E; [ | reflexivity ].
    apply Qltb_lt in E. exfalso. exact (Qlt_not_le _ _ E L).
Qed.

Lemma finally_block_runs (c : capture) (fe : FinEnv) (v : Vars) (w : World) :
  fault_free (faults w) ->
  exists w' : World,
    finally_block (Some c) fe v w = (Val (exit_code v), v, w') /\
    captures w' = captures w /\
    trace w' = trace w ++ finally_events c fe v.
Proof.
  intros Hf.
  pose proof (wp_elim (finally_block (Some c) fe)
    (fun r v' w' =>
       r = Val (exit_code v) /\ v' = v /\ captures w' = captures w /\
       trace w' = trace w ++ finally_events c fe v) v w) as G.
  destruct (finally_block (Some c) fe v w) as [[r v'] w'].
  cbn [fst snd] in G.
  destruct G as [G1 [G2 [G3 G4]]].
  - unfold finally_block, cap_release, perf_counter, log.
    wp_run; path_done.
    + apply Qltb_lt in Heqb. intros Z0. rewrite Z0 in Heqb.
      exact (Qlt_irrefl 0 Heqb).
    + repeat split; try reflexivity.
      unfold finally_events. rewrite <- (Qltb_average (frame_count v)).
      rewrite Heqb. rewrite <- !app_assoc. reflexivity.
    + repeat split; try reflexivity.
      unfold finally_events. rewrite <- (Qltb_average (frame_count v)).
      rewrite Heqb. rewrite <- !app_assoc. reflexivity.
  - subst r v'. exists w'. repeat split; assumption.
Qed.

(** The teardown after any way of leaving the [try] block. *)
Lemma teardown_runs (c : capture) (fe : FinEnv) (left : Res unit)
    (v : Vars) (w : World) :
  fault_free (fin_faults fe) ->
  exists (v' : Vars) (w' : World),
    teardown (Some c) fe left v w =
    (Exited match left with
            | Val _ => exit_code v
            | Exc KeyboardInterrupt => EXIT_OK
            | Exc (Exception _) => EXIT_RUNTIME_FAIL
            end, v', w') /\
    captures w' = captures w /\
    trace w' = trace w ++
      match left with
      | Val _ => []
      | Exc KeyboardInterrupt => [EvLog INFO MsgInterrupt]
      | Exc (Exception name) => [EvLog ERROR (MsgUnexpected (Exception name))]
      end ++ finally_events c fe v.
Proof.
  intros Hf. unfold teardown.
  destruct (handlers_run left v (enter (fin_faults fe) w) Hf)
    as [w1 [E1 [F1 [C1 T1]]]].
  rewrite E1.
  match goal with
  | |- context [ finally_block _ _ ?v1 w1 ] =>
      destruct (finally_block_runs c fe v1 w1) as [w2 [E2 [C2 T2]]]
  end.
  { rewrite F1. exact Hf. }
  rewrite E2.
  destruct left as [ [] | [ | name ] ]; eexists; exists w2.
  all: split; [ reflexivity | split ].
  all: try (rewrite C2, C1; reflexivity).
  all: rewrite T2, T1; cbn [trace enter]; rewrite <- app_assoc; reflexivity.
Qed.

(** ** The loop as a whole *)

(** The loop creates and releases nothing, whatever happens in it. *)
Lemma while_true_quiet (args : Args) (show : bool) (cap : capture)
    (script : list IterEnv) :
  forall (v : Vars) (w : World),
    extends (trace w) (trace (world_of (while_true args show cap script v w))) /\
    captures (world_of (while_true args show cap script v w)) = captures w /\
    start_time (vars_of (while_true args show cap script v w)) = start_time v.
Proof.
  induction script as [ | e rest IH ]; intros v w.
  - cbn. split; [ apply extends_refl | split; reflexivity ].
  - cbn [while_true].
    pose proof (wp_elim _ _ _ _ (loop_body_keeps args show cap e v w)) as G.
    destruct (loop_body args show cap e v (enter (iter_faults e) w))
      as [[r v'] w'].
    cbn [fst snd] in G. destruct G as [G1 [_ [G3 G4]]].
    destruct r as [ [ | ] | x ].
    + destruct (IH v' w') as [I1 [I2 I3]]. split; [ | split ].
      * exact (extends_trans _ _ _ G3 I1).
      * rewrite I2. exact G4.
      * rewrite I3. exact G1.
    + cbn. split; [ exact G3 | split; [ exact G4 | exact G1 ] ].
    + cbn. split; [ exact G3 | split; [ exact G4 | exact G1 ] ].
Qed.

(** The window stays within its bound through the whole loop. *)
Lemma while_true_window (args : Args) (show : bool) (cap : capture)
    (script : list IterEnv) :
  forall (v : Vars) (w : World),
    (length (frame_durations v) <= 60)%nat ->
    (length (frame_durations
               (vars_of (while_true args show cap script v w))) <= 60)%nat.
Proof.
  induction script as [ | e rest IH ]; intros v w H.
  - exact H.
  - cbn [while_true].
    pose proof (wp_elim _ _ _ _ (loop_body_keeps args show cap e v w)) as G.
    destruct (loop_body args show cap e v (enter (iter_faults e) w))
      as [[r v'] w'].
    cbn [fst snd] in G. destruct G as [_ [G2 _]].
    destruct r as [ [ | ] | x ]; cbn [vars_of]; auto.
Qed.

Lemma occurrences_app (p : event -> bool) (l1 l2 : list event) :
  occurrences p (l1 ++ l2) = (occurrences p l1 + occurrences p l2)%nat.
Proof. unfold occurrences. rewrite filter_app, length_app. reflexivity. Qed.

Lemma quiet_no_release (c : capture) (evs : list event) :
  forallb quiet evs = true ->
  occurrences (is_release c) evs = 0%nat /\ occurrences is_destroy evs = 0%nat.
Proof.
  unfold occurrences.
  induction evs as [ | ev evs IH ]; intros H; [ split; reflexivity | ].
  cbn [forallb] in H. apply andb_true_iff in H. destruct H as [H1 H2].
  destruct (IH H2) as [I1 I2].
  destruct ev; cbn in H1 |- *; try discriminate H1; split; assumption.
Qed.

Lemma source_neq (args : Args) (s : string) :
  source args <> s -> (source args =? s)%string = false.
Proof. intros H. apply String.eqb_neq. exact H. Qed.

Lemma source_eq (args : Args) (s : string) :
  source args = s -> (source args =? s)%string = true.
Proof. intros H. apply String.eqb_eq. exact H. Qed.

Lemma failing_iter_not_delivered : not_delivered failing_iter.
Proof. split; [ reflexivity | split; reflexivity ]. Qed.

Lemma good_iter_delivered (t : Q) : delivered_plain (good_iter t).
Proof.
  split; [ reflexivity | ].
  split; [ intros k; reflexivity | ].
  split; [ exists 480, 640, 3; reflexivity | ].
  split; [ discriminate | ].
  apply Qle_refl.
Qed.

Lemma repeat_failing (k : nat) : Forall not_delivered (repeat failing_iter k).
Proof.
  apply Forall_forall. intros e H. apply repeat_spec in H. subst e.
  exact failing_iter_not_delivered.
Qed.

(** ** The failure ceiling *)

(** C1: on a source that is not a file, 30 consecutive iterations whose
    read delivers nothing, counted from a counter at 0, end the loop by
    [break] with the exit code [EXIT_RUNTIME_FAIL] and the counter at
    exactly 30; the first 29 of them backed off and continued, and the
    session then exits with status 2. *)
Theorem ceiling_ends_in_runtime_fail
    (args : Args) (show : bool) (cap : capture)
    (fails rest : list IterEnv) (v : Vars) (w : World) (fe : FinEnv) :
  source args <> "file"%string ->
  consecutive_failures v = 0 ->
  length fails = 30%nat ->
  Forall not_delivered fails ->
  fault_free (fin_faults fe) ->
  exists (v' : Vars) (w' : World),
    while_true args show cap (fails ++ rest) v w = Broke v' w' /\
    exit_code v' = EXIT_RUNTIME_FAIL /\
    consecutive_failures v' = 30 /\
    frame_count v' = frame_count v /\
    trace w' = trace w ++ backoffs cap 29
                       ++ [EvRead cap false; EvLog ERROR MsgReadFailures] /\
    exists (v'' : Vars) (w'' : World),
      teardown (Some cap) fe (Val tt) v' w' =
      (Exited EXIT_RUNTIME_FAIL, v'', w'').
Proof.
  intros Hs Hc Hlen Hall Hfe.
  destruct (ceiling_reached args show cap fails rest v w
              (source_neq _ _ Hs) Hall) as [w' [E [T C]]].
  - intros N. subst fails. discriminate Hlen.
  - rewrite Hc, Hlen. reflexivity.
  - eexists. exists w'. split; [ exact E | ].
    split; [ reflexivity | ]. split; [ reflexivity | ].
    split; [ reflexivity | ]. split; [ rewrite T, Hlen; reflexivity | ].
    destruct (teardown_runs cap fe (Val tt)
                (set_exit_code EXIT_RUNTIME_FAIL
                   (set_consecutive_failures CONSEC_FAIL_MAX v)) w' Hfe)
      as [v'' [w'' [E' _]]].
    exists v'', w''. exact E'.
Qed.

Lemma ceiling_ends_in_runtime_fail_witness :
  exists (v' : Vars) (w' : World),
    while_true webcam_args true 0%nat (repeat failing_iter 30 ++ [])
               vars0 world0 = Broke v' w' /\
    exit_code v' = EXIT_RUNTIME_FAIL /\
    consecutive_failures v' = 30 /\
    frame_count v' = frame_count vars0 /\
    trace w' = trace world0 ++ backoffs 0%nat 29
                 ++ [EvRead 0%nat false; EvLog ERROR MsgReadFailures] /\
    exists (v'' : Vars) (w'' : World),
      teardown (Some 0%nat) (calm_fin 1) (Val tt) v' w' =
      (Exited EXIT_RUNTIME_FAIL, v'', w'').
Proof.
  apply (ceiling_ends_in_runtime_fail webcam_args true 0%nat
           (repeat failing_iter 30) [] vars0 world0 (calm_fin 1)).
  - discriminate.
  - reflexivity.
  - reflexivity.
  - apply repeat_failing.
  - intros k. reflexivity.
Defined.

(** ** End of a file *)

(** C4: on a file source, an iteration whose read delivers nothing ends
    the loop at once with [EXIT_OK], whatever the counter of consecutive
    failures is; the iteration does not sleep, and the session exits with
    status 0. *)
Theorem file_end_of_stream
    (args : Args) (show : bool) (cap : capture)
    (e : IterEnv) (rest : list IterEnv) (v : Vars) (w : World) (fe : FinEnv) :
  source args = "file"%string ->
  not_delivered e ->
  fault_free (fin_faults fe) ->
  exists (v' : Vars) (w' : World),
    while_true args show cap (e :: rest) v w = Broke v' w' /\
    exit_code v' = EXIT_OK /\
    frame_count v' = frame_count v /\
    trace w' = trace w ++ [EvRead cap false; EvLog INFO MsgEndOfFile] /\
    exists (v'' : Vars) (w'' : World),
      teardown (Some cap) fe (Val tt) v' w' = (Exited EXIT_OK, v'', w'').
Proof.
  intros Hs He Hfe. cbn [while_true].
  rewrite (failed_read_on_file args show cap e v w He (source_eq _ _ Hs)).
  eexists. eexists. split; [ reflexivity | ].
  split; [ reflexivity | ]. split; [ reflexivity | ].
  split; [ reflexivity | ].
  match goal with
  | |- context [ teardown _ _ _ ?v1 ?w1 ] =>
      destruct (teardown_runs cap fe (Val tt) v1 w1 Hfe) as [v'' [w'' [E' _]]]
  end.
  exists v'', w''. exact E'.
Qed.

Lemma file_end_of_stream_witness :
  exists (v' : Vars) (w' : World),
    while_true file_args true 0%nat (failing_iter :: [])
               (set_consecutive_failures 100 vars0) world0 = Broke v' w' /\
    exit_code v' = EXIT_OK /\
    frame_count v' = frame_count (set_consecutive_failures 100 vars0) /\
    trace w' = trace world0 ++ [EvRead 0%nat false; EvLog INFO MsgEndOfFile] /\
    exists (v'' : Vars) (w'' : World),
      teardown (Some 0%nat) (calm_fin 1) (Val tt) v' w' =
      (Exited EXIT_OK, v'', w'').
Proof.
  apply (file_end_of_stream file_args true 0%nat failing_iter []
           (set_consecutive_failures 100 vars0) world0 (calm_fin 1)).
  - reflexivity.
  - exact failing_iter_not_delivered.
  - intros k. reflexivity.
Defined.

(** ** The counter of consecutive failures *)

(** An iteration that delivered a frame never breaks with a failure. *)
Lemma delivered_never_fails (args : Args) (show : bool) (cap : capture)
    (e : IterEnv) (v : Vars) (w : World) (v' : Vars) (w' : World) :
  read_ret e = true ->
  loop_body args show cap e v (enter (iter_faults e) w) = (Val Break, v', w') ->
  exit_code v' = EXIT_OK.
Proof.
  intros Hr E.
  pose proof (wp_elim _ _ _ _ (loop_body_exit args show cap e v w)) as G.
  rewrite E in G. cbn [fst snd] in G.
  destruct G as [G | [_ [G _]]]; [ exact G | congruence ].
Qed.

(** C3, as the loop has it: in every iteration whose read returns, the
    counter becomes 0 if a frame was delivered and one more than it was if
    not.  On a source that is not a file, a run of 29 failed reads from a
    counter at 0 leaves the loop running with the counter at 29, and the
    successful read after it sets the counter to 0: the loop is then not
    ended by a failure, and it goes on to the next iteration when that
    iteration sees no quit key, no closed window and no exception. *)
Theorem counter_counts_and_resets
    (args : Args) (show : bool) (cap : capture)
    (fails : list IterEnv) (ok : IterEnv) (v : Vars) (w : World) :
  source args <> "file"%string ->
  consecutive_failures v = 0 ->
  length fails = 29%nat ->
  Forall not_delivered fails ->
  read_ret ok = true ->
  iter_faults ok 0%nat = None ->
  (forall (a : Args) (e : IterEnv) (v1 : Vars) (w1 : World)
          (r : Res ctl) (v2 : Vars) (w2 : World),
      iter_faults e 0%nat = None ->
      loop_body a show cap e v1 (enter (iter_faults e) w1) = (r, v2, w2) ->
      consecutive_failures v2 =
      if read_ret e then 0 else consecutive_failures v1 + 1) /\
  (exists w1 : World,
      while_true args show cap fails v w =
      Running (set_consecutive_failures 29 v) w1) /\
  consecutive_failures
    (vars_of (while_true args show cap (fails ++ [ok]) v w)) = 0 /\
  (forall (v' : Vars) (w' : World),
      while_true args show cap (fails ++ [ok]) v w = Broke v' w' ->
      exit_code v' = EXIT_OK) /\
  (delivered_plain ok ->
   exists (v' : Vars) (w' : World),
     while_true args show cap (fails ++ [ok]) v w = Running v' w' /\
     consecutive_failures v' = 0 /\
     frame_count v' = frame_count v + 1).
Proof.
  intros Hs Hc Hlen Hall Hr Hread.
  assert (Gen : forall (a : Args) (e : IterEnv) (v1 : Vars) (w1 : World)
                       (r : Res ctl) (v2 : Vars) (w2 : World),
             iter_faults e 0%nat = None ->
             loop_body a show cap e v1 (enter (iter_faults e) w1) = (r, v2, w2) ->
             consecutive_failures v2 =
             if read_ret e then 0 else consecutive_failures v1 + 1).
  { intros a e v1 w1 r v2 w2 H0 E.
    pose proof (wp_elim _ _ _ _ (loop_body_counter a show cap e v1 w1 H0)) as G.
    rewrite E in G. exact G. }
  destruct (run_of_failures args show cap fails [ok] v w
              (source_neq _ _ Hs) Hall) as [w1 [E1 [T1 C1]]].
  { rewrite Hc, Hlen. reflexivity. }
  replace (consecutive_failures v + Z.of_nat (length fails)) with 29 in E1
    by (rewrite Hc, Hlen; reflexivity).
  split; [ exact Gen | ].
  split.
  { destruct (run_of_failures args show cap fails [] v w
                (source_neq _ _ Hs) Hall) as [w0 [E0 _]].
    { rewrite Hc, Hlen. reflexivity. }
    rewrite app_nil_r in E0.
    replace (consecutive_failures v + Z.of_nat (length fails)) with 29 in E0
      by (rewrite Hc, Hlen; reflexivity).
    exists w0. exact E0. }
  rewrite E1. cbn [while_true].
  destruct (loop_body args show cap ok (set_consecutive_failures 29 v)
              (enter (iter_faults ok) w1)) as [[r v'] w'] eqn:E.
  pose proof (Gen args ok _ _ _ _ _ Hread E) as G. rewrite Hr in G.
  split; [ | split ].
  - destruct r as [ [ | ] | x ]; exact G.
  - intros v2 w2 B. destruct r as [ [ | ] | x ]; try discriminate B.
    inversion B; subst v2 w2.
    exact (delivered_never_fails args show cap ok _ _ _ _ Hr E).
  - intros Hplain.
    destruct (delivered_continues args show cap ok
                (set_consecutive_failures 29 v) w1 Hplain)
      as [w2 [evs [E2 _]]].
    rewrite E2 in E. inversion E; subst r v' w'.
    eexists. eexists. split; [ reflexivity | ]. split; reflexivity.
Qed.

Lemma counter_counts_and_resets_witness :
  exists (v' : Vars) (w' : World),
    while_true webcam_args true 0%nat (repeat failing_iter 29 ++ [good_iter 1])
               vars0 world0 = Running v' w' /\
    consecutive_failures v' = 0 /\
    frame_count v' = frame_count vars0 + 1.
Proof.
  apply (counter_counts_and_resets webcam_args true 0%nat
           (repeat failing_iter 29) (good_iter 1) vars0 world0).
  - discriminate.
  - reflexivity.
  - reflexivity.
  - apply repeat_failing.
  - reflexivity.
  - reflexivity.
  - apply good_iter_delivered.
Defined.

(** A delivered frame during which [q] is pressed: the frame is counted
    and shown, the key is reported, and the loop is left with [EXIT_OK]
    without the window being polled. *)
Lemma delivered_quits (args : Args) (show : bool) (cap : capture)
    (e : IterEnv) (v : Vars) (w : World) :
  read_ret e = true ->
  fault_free (iter_faults e) ->
  (exists h wd c, frame_shape e = [h; wd; c]) ->
  Z.land (pressed e) 255 = ord_q ->
  exists (w' : World) (evs : list event),
    loop_body args show cap e v (enter (iter_faults e) w) =
    (Val Break,
     set_exit_code EXIT_OK
       (observe_frame (clock e) (set_consecutive_failures 0 v)), w') /\
    trace w' = trace w ++ [EvRead cap true; EvPerfCounter (clock e)] ++ evs
                 ++ [EvImshow; EvWaitKey (pressed e); EvLog INFO MsgQuitKey] /\
    forallb quiet evs = true /\
    captures w' = captures w.
Proof.
  intros Hr Hf [h [wd [c Hshape]]] Hk.
  assert (K : (Z.land (pressed e) 255 =? ord_q) = true)
    by (apply Z.eqb_eq; exact Hk).
  pose proof (wp_elim (loop_body args show cap e)
    (fun r v' w' =>
       r = Val Break /\
       v' = set_exit_code EXIT_OK
              (observe_frame (clock e) (set_consecutive_failures 0 v)) /\
       exists evs,
         trace w' = trace w ++ [EvRead cap true; EvPerfCounter (clock e)]
                      ++ evs
                      ++ [EvImshow; EvWaitKey (pressed e);
                          EvLog INFO MsgQuitKey] /\
         forallb quiet evs = true /\ captures w' = captures w)
    v (enter (iter_faults e) w)) as G.
  destruct (loop_body args show cap e v (enter (iter_faults e) w))
    as [[r v'] w'].
  cbn [fst snd] in G.
  destruct G as [G1 [G2 [evs [G3 [G4 G5]]]]].
  - unfold_body. rewrite Hr, Hshape. wp_run; path_done.
    all: split; [ reflexivity | split; [ reflexivity | ] ].
    + exists [EvDrawText; EvShape;
              EvDrawBbox (wd / 2 - 100) (h / 2 - 100)
                         (wd / 2 + 100) (h / 2 + 100);
              EvDrawFps fps;
              EvLog DEBUG (MsgFrame (frame_count v + 1) wd h fps)].
      repeat rewrite <- app_assoc. cbn [app].
      split; [ reflexivity | split; reflexivity ].
    + exists [EvDrawText; EvShape;
              EvDrawBbox (wd / 2 - 100) (h / 2 - 100)
                         (wd / 2 + 100) (h / 2 + 100);
              EvDrawFps fps].
      repeat rewrite <- app_assoc. cbn [app].
      split; [ reflexivity | split; reflexivity ].
    + exists [EvDrawText; EvShape;
              EvDrawBbox (wd / 2 - 100) (h / 2 - 100)
                         (wd / 2 + 100) (h / 2 + 100);
              EvLog DEBUG (MsgFrame (frame_count v + 1) wd h fps)].
      repeat rewrite <- app_assoc. cbn [app].
      split; [ reflexivity | split; reflexivity ].
    + exists [EvDrawText; EvShape;
              EvDrawBbox (wd / 2 - 100) (h / 2 - 100)
                         (wd / 2 + 100) (h / 2 + 100)].
      repeat rewrite <- app_assoc. cbn [app].
      split; [ reflexivity | split; reflexivity ].
  - subst r v'. exists w', evs. repeat split; assumption.
Qed.

(** The sentence of C3 about the run of 29 failures fails as it is
    stated, on a source that is not a file: the 29 failed reads and the
    successful read all take place, the counter is 0 after it, and the
    loop terminates all the same, with [EXIT_OK], because [q] was pressed
    during the iteration of the successful read. *)
Lemma quit_key_after_failures_ends_loop :
  (exists (v' : Vars) (w' : World) (evs : list event),
      while_true webcam_args true 0%nat
                 (repeat failing_iter 29 ++ [quit_iter 1]) vars0 world0 =
        Broke v' w' /\
      exit_code v' = EXIT_OK /\
      consecutive_failures v' = 0 /\
      trace w' = backoffs 0%nat 29 ++ [EvRead 0%nat true; EvPerfCounter 1]
                   ++ evs
                   ++ [EvImshow; EvWaitKey 113; EvLog INFO MsgQuitKey]) /\
  ~ (forall (args : Args) (show : bool) (cap : capture)
            (fails : list IterEnv) (ok : IterEnv) (v : Vars) (w : World),
        source args <> "file"%string ->
        consecutive_failures v = 0 ->
        length fails = 29%nat ->
        Forall not_delivered fails ->
        read_ret ok = true ->
        fault_free (iter_faults ok) ->
        exists (v' : Vars) (w' : World),
          while_true args show cap (fails ++ [ok]) v w = Running v' w' /\
          consecutive_failures v' = 0).
Proof.
  assert (R : exists (v' : Vars) (w' : World) (evs : list event),
      while_true webcam_args true 0%nat
                 (repeat failing_iter 29 ++ [quit_iter 1]) vars0 world0 =
        Broke v' w' /\
      exit_code v' = EXIT_OK /\
      consecutive_failures v' = 0 /\
      trace w' = backoffs 0%nat 29 ++ [EvRead 0%nat true; EvPerfCounter 1]
                   ++ evs
                   ++ [EvImshow; EvWaitKey 113; EvLog INFO MsgQuitKey]).
  { destruct (run_of_failures webcam_args true 0%nat (repeat failing_iter 29)
                [quit_iter 1] vars0 world0 eq_refl (repeat_failing 29))
      as [w1 [E1 [T1 _]]].
    { rewrite repeat_length. reflexivity. }
    rewrite E1. cbn [while_true].
    match goal with
    | |- context [ loop_body _ _ _ _ ?v1 _ ] =>
        destruct (delivered_quits webcam_args true 0%nat (quit_iter 1) v1 w1)
          as [w2 [evs [E2 [T2 _]]]]
    end.
    - reflexivity.
    - intros k. reflexivity.
    - exists 480, 640, 3. reflexivity.
    - reflexivity.
    - rewrite E2. eexists. exists w2, evs.
      split; [ reflexivity | ]. split; [ reflexivity | ].
      split; [ reflexivity | ].
      rewrite T2, T1. rewrite repeat_length. reflexivity. }
  split; [ exact R | ].
  intros H.
  destruct R as [v1 [w1 [evs [E _]]]].
  destruct (H webcam_args true 0%nat (repeat failing_iter 29) (quit_iter 1)
              vars0 world0) as [v' [w' [E' _]]].
  - discriminate.
  - reflexivity.
  - apply repeat_length.
  - apply repeat_failing.
  - reflexivity.
  - intros k. reflexivity.
  - rewrite E in E'. discriminate E'.
Qed.

(** ** The reference time of the durations *)

Lemma startup_runs (se : StartEnv) (w : World) :
  fault_free (start_faults se) ->
  startup se tt (enter (start_faults se) w) =
  (Val (mkVars [] (start_clock se) 0 (start_clock se) 0 EXIT_OK), tt,
   mkWorld (start_faults se) 3 (captures w)
           (trace w ++ [EvNamedWindow; EvLog INFO MsgRunning;
                        EvPerfCounter (start_clock se)])).
Proof.
  intros Hf. apply wp_result.
  unfold startup, perf_counter, log. wp_run; path_done.
Qed.

(** Failed reads below the ceiling, then a delivered frame: the duration
    recorded spans the failed iterations. *)
Lemma delivery_after_failures (args : Args) (show : bool) (cap : capture)
    (fails : list IterEnv) (ok : IterEnv) (v : Vars) (w : World) :
  (source args =? "file")%string = false ->
  Forall not_delivered fails ->
  delivered_plain ok ->
  consecutive_failures v + Z.of_nat (length fails) < CONSEC_FAIL_MAX ->
  exists (v' : Vars) (w' : World) (evs : list event),
    while_true args show cap (fails ++ [ok]) v w = Running v' w' /\
    frame_durations v' =
      deque_append FPS_FRAME_COUNT (frame_durations v)
                   (clock ok - prev_time v)%Q /\
    prev_time v' = clock ok /\
    frame_count v' = frame_count v + 1 /\
    trace w' = trace w ++ backoffs cap (length fails)
                       ++ [EvRead cap true; EvPerfCounter (clock ok)] ++ evs.
Proof.
  intros Hs Hall Hok Hc.
  destruct (run_of_failures args show cap fails [ok] v w Hs Hall Hc)
    as [w1 [E1 [T1 C1]]].
  rewrite E1. cbn [while_true].
  match goal with
  | |- context [ loop_body _ _ _ _ ?v1 _ ] =>
      destruct (delivered_continues args show cap ok v1 w1 Hok)
        as [w2 [evs [E2 [T2 _]]]]
  end.
  rewrite E2. eexists. exists w2, evs.
  split; [ reflexivity | ].
  split; [ reflexivity | ]. split; [ reflexivity | ].
  split; [ reflexivity | ].
  rewrite T2, T1. rewrite <- app_assoc. reflexivity.
Qed.

(** C10: the reference time [prev_time] and the window change only in an
    iteration that delivered a frame, and then the duration appended is
    the clock of that iteration minus the reference time.  So the first
    delivered frame is measured from the clock read before the loop, and
    the failed reads before a delivered frame, with their sleeps of 20 ms,
    lie between the two clock readings whose difference is recorded. *)
Theorem reference_time_moves_on_delivery
    (args : Args) (show : bool) (cap : capture) (se : StartEnv)
    (fails : list IterEnv) (ok : IterEnv) (w0 : World) :
  source args <> "file"%string ->
  fault_free (start_faults se) ->
  Forall not_delivered fails ->
  (length fails < 30)%nat ->
  delivered_plain ok ->
  (forall (a : Args) (e : IterEnv) (v : Vars) (w : World)
          (r : Res ctl) (v' : Vars) (w' : World),
      loop_body a show cap e v (enter (iter_faults e) w) = (r, v', w') ->
      (prev_time v' = prev_time v /\
       frame_durations v' = frame_durations v /\
       frame_count v' = frame_count v) \/
      (read_ret e = true /\
       prev_time v' = clock e /\
       frame_durations v' =
         deque_append FPS_FRAME_COUNT (frame_durations v)
                      (clock e - prev_time v)%Q /\
       frame_count v' = frame_count v + 1)) /\
  (forall (v : Vars) (w : World),
      consecutive_failures v + Z.of_nat (length fails) < CONSEC_FAIL_MAX ->
      exists (v' : Vars) (w' : World) (evs : list event),
        while_true args show cap (fails ++ [ok]) v w = Running v' w' /\
        frame_durations v' =
          deque_append FPS_FRAME_COUNT (frame_durations v)
                       (clock ok - prev_time v)%Q /\
        prev_time v' = clock ok /\
        trace w' = trace w ++ backoffs cap (length fails)
                     ++ [EvRead cap true; EvPerfCounter (clock ok)] ++ evs) /\
  (exists (v0 : Vars) (w1 : World) (v' : Vars) (w' : World)
          (evs : list event),
      startup se tt (enter (start_faults se) w0) = (Val v0, tt, w1) /\
      prev_time v0 = start_clock se /\
      frame_durations v0 = [] /\
      while_true args show cap (fails ++ [ok]) v0 w1 = Running v' w' /\
      frame_durations v' = [(clock ok - start_clock se)%Q] /\
      trace w' = trace w0
                   ++ [EvNamedWindow; EvLog INFO MsgRunning;
                       EvPerfCounter (start_clock se)]
                   ++ backoffs cap (length fails)
                   ++ [EvRead cap true; EvPerfCounter (clock ok)] ++ evs).
Proof.
  intros Hs Hse Hall Hlen Hok.
  split; [ | split ].
  - intros a e v w r v' w' E.
    pose proof (wp_elim _ _ _ _ (loop_body_reference a show cap e v w)) as G.
    rewrite E in G. exact G.
  - intros v w Hc.
    destruct (delivery_after_failures args show cap fails ok v w
                (source_neq _ _ Hs) Hall Hok Hc)
      as [v' [w' [evs [E [D [P [_ T]]]]]]].
    exists v', w', evs. repeat split; assumption.
  - rewrite (startup_runs se w0 Hse).
    match goal with
    | |- context [ (Val ?v0, tt, ?w1) ] =>
        destruct (delivery_after_failures args show cap fails ok v0 w1
                    (source_neq _ _ Hs) Hall Hok)
          as [v' [w' [evs [E [D [P [_ T]]]]]]];
        [ cbn [consecutive_failures]; unfold CONSEC_FAIL_MAX; lia | ];
        exists v0, w1, v', w', evs
    end.
    split; [ reflexivity | ]. split; [ reflexivity | ].
    split; [ reflexivity | ]. split; [ exact E | ].
    split; [ exact D | ].
    rewrite T. cbn [trace]. rewrite <- app_assoc. reflexivity.
Qed.

Lemma reference_time_moves_on_delivery_witness :
  exists (v0 : Vars) (w1 : World) (v' : Vars) (w' : World)
         (evs : list event),
    startup (mkStartEnv no_faults 10) tt
            (enter (start_faults (mkStartEnv no_faults 10)) world0) =
      (Val v0, tt, w1) /\
    prev_time v0 = start_clock (mkStartEnv no_faults 10) /\
    frame_durations v0 = [] /\
    while_true webcam_args true 0%nat (repeat failing_iter 2 ++ [good_iter 11])
               v0 w1 = Running v' w' /\
    frame_durations v' =
      [(clock (good_iter 11) - start_clock (mkStartEnv no_faults 10))%Q] /\
    trace w' = trace world0
                 ++ [EvNamedWindow; EvLog INFO MsgRunning;
                     EvPerfCounter (start_clock (mkStartEnv no_faults 10))]
                 ++ backoffs 0%nat (length (repeat failing_iter 2))
                 ++ [EvRead 0%nat true; EvPerfCounter (clock (good_iter 11))]
                 ++ evs.
Proof.
  apply (reference_time_moves_on_delivery webcam_args true 0%nat
           (mkStartEnv no_faults 10) (repeat failing_iter 2) (good_iter 11)
           world0).
  - discriminate.
  - intros k. reflexivity.
  - apply repeat_failing.
  - cbn. lia.
  - apply good_iter_delivered.
Defined.

(** ** Acquisition and start *)

Ltac unfold_open :=
  unfold acquire, open_capture, select_capture, report_failure,
    cap_isOpened, cap_release, cap_get, log, sleep, RTSP_RETRY_ATTEMPTS;
  cbn [seq rtsp_attempts];
  unfold cap_isOpened, cap_release, cap_get, log, sleep, RTSP_RETRY_ATTEMPTS;
  cbn [Nat.ltb Nat.leb].

(** The capture that [open_capture] returns was never released, and no
    window was destroyed, when [main] gets it. *)
Lemma acquire_fresh (args : Args) (oe : OpenEnv) :
  wp (acquire args oe)
     (fun r _ w' =>
        forall c : capture,
          r = Val (inr c) ->
          occurrences (is_release c) (trace w') = 0%nat /\
          occurrences is_destroy (trace w') = 0%nat)
     tt (enter (open_faults oe) world0).
Proof.
  unfold_open. wp_run.
  all: intros c' E; try discriminate E.
  all: inversion E; subst c'; split; reflexivity.
Qed.

Lemma startup_keeps (se : StartEnv) (w : World) :
  wp (startup se)
     (fun r _ w' =>
        extends (trace w) (trace w') /\
        forall v0 : Vars, r = Val v0 -> start_time v0 = start_clock se)
     tt (enter (start_faults se) w).
Proof.
  unfold startup, perf_counter, log. wp_run.
  all: split;
    [ repeat (apply extends_snoc; [ | reflexivity ]); apply extends_refl | ].
  all: intros v0 E; try discriminate E.
  inversion E. reflexivity.
Qed.

(** [main_body], once the capture is there and the variables are set. *)
Lemma main_after_startup (args : Args) (env : Env) (cap : capture)
    (w_a : World) (v0 : Vars) (w_s : World) :
  acquire args (open_env env) tt (enter (open_faults (open_env env)) world0) =
    (Val (inr cap), tt, w_a) ->
  startup (start_env env) tt (enter (start_faults (start_env env)) w_a) =
    (Val v0, tt, w_s) ->
  main_body args env =
  match while_true args (resolved_show args) cap (script env) v0 w_s with
  | Running _ w2 => (None, w2)
  | Broke v w2 =>
      let '(p, _, w3) := teardown (Some cap) (fin_env env) (Val tt) v w2
      in (Some p, w3)
  | Raised x v w2 =>
      let '(p, _, w3) := teardown (Some cap) (fin_env env) (Exc x) v w2
      in (Some p, w3)
  end.
Proof.
  intros A B. unfold main_body. rewrite A, B. reflexivity.
Qed.

(** ** The command line *)


Lemma member_log_level (s : string) :
  member s log_level_choices = true ->
  s = "DEBUG"%string \/ s = "INFO"%string.
Proof.
  unfold member, log_level_choices. cbn [existsb]. intros H.
  destruct (String.eqb_spec s "DEBUG"); [ left; assumption | ].
  destruct (String.eqb_spec s "INFO"); [ right; assumption | ].
  discriminate H.
Qed.

(** What [parse_tokens] returns was checked against the choices, and the
    command line held no source outside them. *)
Lemma parse_tokens_checked (argv : list token) :
  forall (ns : Namespace) (args : Args),
    member (ns_source ns) source_choices = true ->
    member (ns_log_level ns) log_level_choices = true ->
    parse_tokens argv ns = Parsed args ->
    member (source args) source_choices = true /\
    member (log_level args) log_level_choices = true /\
    (exists b : bool, show_fps args = Some b) /\
    (forall value : string,
        In (TSource value) argv -> member value source_choices = true).
Proof.
  induction argv as [ | t rest IH ]; intros ns args Hs Hl E.
  - cbn [parse_tokens] in E. destruct (seen_unrecognized ns); [ discriminate E | ].
    inversion E; subst. cbn [source log_level show_fps].
    split; [ exact Hs | ]. split; [ exact Hl | ].
    split; [ eexists; reflexivity | ]. intros value [].
  - destruct t as [ value | value | value | | | | arg ]; cbn [parse_tokens] in E.
    + destruct (member value source_choices) eqn:M; [ | discriminate E ].
      destruct ((fun H1 H2 => IH _ args H1 H2 E) M Hl) as [A [B [C D]]].
      repeat split; try assumption.
      intros value' [H | H]; [ inversion H; subst; exact M | exact (D value' H) ].
    + destruct ((fun H1 H2 => IH _ args H1 H2 E) Hs Hl) as [A [B [C D]]].
      repeat split; try assumption.
      intros value' [H | H]; [ discriminate H | exact (D value' H) ].
    + destruct (member value log_level_choices) eqn:M; [ | discriminate E ].
      destruct ((fun H1 H2 => IH _ args H1 H2 E) Hs M) as [A [B [C D]]].
      repeat split; try assumption.
      intros value' [H | H]; [ discriminate H | exact (D value' H) ].
    + destruct (seen_no_fps ns); [ discriminate E | ].
      destruct ((fun H1 H2 => IH _ args H1 H2 E) Hs Hl) as [A [B [C D]]].
      repeat split; try assumption.
      intros value' [H | H]; [ discriminate H | exact (D value' H) ].
    + destruct (seen_show_fps ns); [ discriminate E | ].
      destruct ((fun H1 H2 => IH _ args H1 H2 E) Hs Hl) as [A [B [C D]]].
      repeat split; try assumption.
      intros value' [H | H]; [ discriminate H | exact (D value' H) ].
    + discriminate E.
    + destruct ((fun H1 H2 => IH _ args H1 H2 E) Hs Hl) as [A [B [C D]]].
      repeat split; try assumption.
      intros value' [H | H]; [ discriminate H | exact (D value' H) ].
Qed.

(** [argparse] exits with status 2, or with 0 at a request for help. *)
Lemma parse_tokens_status (argv : list token) :
  forall (ns : Namespace) (status : Z),
    parse_tokens argv ns = ParseExit status ->
    status = 2 \/ (status = 0 /\ In THelp argv).
Proof.
  induction argv as [ | t rest IH ]; intros ns status E.
  - cbn [parse_tokens] in E. destruct (seen_unrecognized ns); inversion E. left. reflexivity.
  - destruct t as [ value | value | value | | | | arg ]; cbn [parse_tokens] in E.
    + destruct (member value source_choices);
        [ destruct (IH _ _ E) as [H | [H I]];
          [ left; exact H | right; split; [ exact H | right; exact I ] ]
        | inversion E; left; reflexivity ].
    + destruct (IH _ _ E) as [H | [H I]];
        [ left; exact H | right; split; [ exact H | right; exact I ] ].
    + destruct (member value log_level_choices);
        [ destruct (IH _ _ E) as [H | [H I]];
          [ left; exact H | right; split; [ exact H | right; exact I ] ]
        | inversion E; left; reflexivity ].
    + destruct (seen_no_fps ns);
        [ inversion E; left; reflexivity
        | destruct (IH _ _ E) as [H | [H I]];
          [ left; exact H | right; split; [ exact H | right; exact I ] ] ].
    + destruct (seen_show_fps ns);
        [ inversion E; left; reflexivity
        | destruct (IH _ _ E) as [H | [H I]];
          [ left; exact H | right; split; [ exact H | right; exact I ] ] ].
    + inversion E. right. split; [ reflexivity | left; reflexivity ].
    + destruct (IH _ _ E) as [H | [H I]];
        [ left; exact H | right; split; [ exact H | right; exact I ] ].
Qed.

Lemma parse_args_checked (argv : list token) (args : Args) :
  parse_args argv = Parsed args ->
  member (source args) source_choices = true /\
  member (log_level args) log_level_choices = true /\
  (exists b : bool, show_fps args = Some b) /\
  (forall value : string,
      In (TSource value) argv -> member value source_choices = true).
Proof.
  intros E. apply (parse_tokens_checked argv defaults args); try reflexivity.
  exact E.
Qed.

(** The levels that the command line can carry are levels that
    [setup_logger] accepts. *)
Lemma setup_logger_accepts (level : string) :
  member level log_level_choices = true ->
  exists n : Z, setup_logger level = Val n.
Proof.
  intros H. destruct (member_log_level level H) as [E | E]; subst level.
  - exists 10. reflexivity.
  - exists 20. reflexivity.
Qed.

(** After a command line that parses, [main] is its body on the parsed
    arguments. *)
Lemma main_parsed (argv : list token) (args : Args) (env : Env) :
  parse_args argv = Parsed args -> main argv env = main_body args env.
Proof.
  intros E. unfold main. rewrite E.
  destruct (parse_args_checked argv args E) as [_ [L _]].
  destruct (setup_logger_accepts (log_level args) L) as [n S0].
  rewrite S0. reflexivity.
Qed.


(** ** The end of the session *)

(** A session whose loop has ended, with a teardown in which nothing
    raises: [main_body] exits with the terminal code of the loop, and the
    trace is that of the loop followed by the handler and the [finally]
    block. *)
Lemma session_ends (args : Args) (env : Env) (cap : capture)
    (w_a : World) (v0 : Vars) (w_s : World) :
  acquire args (open_env env) tt (enter (open_faults (open_env env)) world0) =
    (Val (inr cap), tt, w_a) ->
  startup (start_env env) tt (enter (start_faults (start_env env)) w_a) =
    (Val v0, tt, w_s) ->
  fault_free (fin_faults (fin_env env)) ->
  ended (while_true args (resolved_show args) cap (script env) v0 w_s) ->
  exists (loop_events : list event) (w' : World),
    main_body args env =
      (Some (Exited (terminal_code
                       (while_true args (resolved_show args) cap
                                   (script env) v0 w_s))), w') /\
    forallb quiet loop_events = true /\
    trace w' =
      trace w_s ++ loop_events
        ++ handler_events
             (while_true args (resolved_show args) cap (script env) v0 w_s)
        ++ finally_events cap (fin_env env)
             (vars_of (while_true args (resolved_show args) cap
                                  (script env) v0 w_s)) /\
    start_time (vars_of (while_true args (resolved_show args) cap
                                    (script env) v0 w_s)) =
      start_clock (start_env env) /\
    occurrences (is_release cap) (trace w_s) = 0%nat /\
    occurrences is_destroy (trace w_s) = 0%nat.
Proof.
  intros A B Hf Hend.
  rewrite (main_after_startup args env cap w_a v0 w_s A B).
  destruct (while_true_quiet args (resolved_show args) cap (script env) v0 w_s)
    as [[loop_events [T Q]] [_ St]].
  pose proof (wp_elim _ _ _ _ (acquire_fresh args (open_env env))) as Fa.
  rewrite A in Fa. cbn [fst snd] in Fa.
  destruct (Fa cap eq_refl) as [Ra Da].
  pose proof (wp_elim _ _ _ _ (startup_keeps (start_env env) w_a)) as Fs.
  rewrite B in Fs. cbn [fst snd] in Fs.
  destruct Fs as [[start_events [Ts Qs]] S0].
  destruct (quiet_no_release cap start_events Qs) as [Rs Ds].
  assert (R0 : occurrences (is_release cap) (trace w_s) = 0%nat)
    by (rewrite Ts, occurrences_app, Ra, Rs; reflexivity).
  assert (D0 : occurrences is_destroy (trace w_s) = 0%nat)
    by (rewrite Ts, occurrences_app, Da, Ds; reflexivity).
  rewrite (S0 v0 eq_refl) in St.
  destruct (while_true args (resolved_show args) cap (script env) v0 w_s)
    as [ v w | v w | x v w ]; cbn [ended] in Hend; [ contradiction | | ].
  - destruct (teardown_runs cap (fin_env env) (Val tt) v w Hf)
      as [v' [w' [E [_ T']]]].
    rewrite E. exists loop_events, w'.
    cbn [terminal_code handler_events vars_of world_of] in *.
    split; [ reflexivity | ]. split; [ exact Q | ].
    split; [ rewrite T', T, <- app_assoc; reflexivity | ].
    split; [ exact St | ]. split; assumption.
  - destruct (teardown_runs cap (fin_env env) (Exc x) v w Hf)
      as [v' [w' [E [_ T']]]].
    rewrite E. exists loop_events, w'.
    cbn [terminal_code handler_events vars_of world_of] in *.
    split; [ destruct x; reflexivity | ]. split; [ exact Q | ].
    split; [ rewrite T', T, <- app_assoc; destruct x; reflexivity | ].
    split; [ exact St | ]. split; assumption.
Qed.

Lemma average_fps_cases (frames : Z) (elapsed : Q) :
  ((0 < elapsed)%Q -> average_fps frames elapsed = (inject_Z frames / elapsed)%Q) /\
  ((elapsed <= 0)%Q -> average_fps frames elapsed = 0%Q).
Proof.
  unfold average_fps. destruct (Qlt_le_dec 0 elapsed) as [L | L]; split.
  - reflexivity.
  - intros H. exfalso. exact (Qlt_not_le _ _ L H).
  - intros H. exfalso. exact (Qlt_not_le _ _ H L).
  - reflexivity.
Qed.

Lemma handler_events_quiet (o : outcome) :
  forallb quiet (handler_events o) = true.
Proof. destruct o as [ v w | v w | [ | name ] v w ]; reflexivity. Qed.

(** C2: however the loop ended (by [break], by an interrupt or by an
    error raised in its body), [main] releases the capture once and
    destroys the windows once in the whole session, reports the frames,
    the elapsed time and their quotient (0 when no time has elapsed), and
    exits with the terminal code of the loop.  This holds of the body of
    [main] on any arguments, and so of [main] on every command line that
    parses to them. *)
Theorem teardown_on_every_exit (args : Args) (env : Env) (cap : capture)
    (w_a : World) (v0 : Vars) (w_s : World) :
  acquire args (open_env env) tt (enter (open_faults (open_env env)) world0) =
    (Val (inr cap), tt, w_a) ->
  startup (start_env env) tt (enter (start_faults (start_env env)) w_a) =
    (Val v0, tt, w_s) ->
  fault_free (fin_faults (fin_env env)) ->
  ended (while_true args (resolved_show args) cap (script env) v0 w_s) ->
  let o := while_true args (resolved_show args) cap (script env) v0 w_s in
  let frames := frame_count (vars_of o) in
  let elapsed := (fin_clock (fin_env env) - start_clock (start_env env))%Q in
  exists (before : list event) (w' : World),
    main_body args env = (Some (Exited (terminal_code o)), w') /\
    (forall argv : list token,
        parse_args argv = Parsed args ->
        main argv env = (Some (Exited (terminal_code o)), w')) /\
    trace w' =
      before ++ [EvRelease cap; EvDestroyAllWindows;
                 EvPerfCounter (fin_clock (fin_env env));
                 EvLog INFO (MsgClosed frames elapsed
                                       (average_fps frames elapsed))] /\
    occurrences (is_release cap) (trace w') = 1%nat /\
    occurrences is_destroy (trace w') = 1%nat /\
    ((0 < elapsed)%Q ->
     average_fps frames elapsed = (inject_Z frames / elapsed)%Q) /\
    ((elapsed <= 0)%Q -> average_fps frames elapsed = 0%Q).
Proof.
  intros A B Hf Hend o frames elapsed.
  destruct (session_ends args env cap w_a v0 w_s A B Hf Hend)
    as [loop_events [w' [E [Q [T [St [R0 D0]]]]]]].
  fold o in E, T, St.
  exists (trace w_s ++ loop_events ++ handler_events o), w'.
  assert (T' : trace w' =
               (trace w_s ++ loop_events ++ handler_events o) ++
               [EvRelease cap; EvDestroyAllWindows;
                EvPerfCounter (fin_clock (fin_env env));
                EvLog INFO (MsgClosed frames elapsed
                                      (average_fps frames elapsed))]).
  { rewrite T. unfold finally_events. rewrite St.
    rewrite <- !app_assoc. reflexivity. }
  destruct (quiet_no_release cap loop_events Q) as [Rl Dl].
  destruct (quiet_no_release cap (handler_events o) (handler_events_quiet o))
    as [Rh Dh].
  split; [ exact E | ].
  split; [ intros argv P; rewrite (main_parsed argv args env P); exact E | ].
  split; [ exact T' | ].
  split; [ | split ].
  - rewrite T'. rewrite !occurrences_app, R0, Rl, Rh.
    unfold occurrences. cbn [filter is_release]. rewrite Nat.eqb_refl.
    reflexivity.
  - rewrite T'. rewrite !occurrences_app, D0, Dl, Dh. reflexivity.
  - apply average_fps_cases.
Qed.

Lemma teardown_on_every_exit_witness :
  exists w' : World,
    main [TSource "file"; TPath "clip.mp4"] two_frame_session =
      (Some (Exited EXIT_OK), w') /\
    occurrences (is_release 0%nat) (trace w') = 1%nat /\
    occurrences is_destroy (trace w') = 1%nat.
Proof.
  destruct (teardown_on_every_exit file_args two_frame_session 0%nat
              (snd (acquire file_args calm_open tt (enter no_faults world0)))
              (mkVars [] 10 0 10 0 EXIT_OK)
              (snd (startup (mkStartEnv no_faults 10) tt
                      (enter no_faults
                         (snd (acquire file_args calm_open tt
                                 (enter no_faults world0)))))))
    as [before [w' [_ [E [_ [R [D _]]]]]]].
  - reflexivity.
  - reflexivity.
  - intros k. reflexivity.
  - vm_compute. exact I.
  - exists w'.
    split; [ exact (E [TSource "file"; TPath "clip.mp4"] eq_refl) | ].
    split; [ exact R | exact D ].
Defined.

(** ** Interrupts and errors in the loop body *)

Ltac first_fault :=
  match goal with
  | L : forall j : nat, (j < _)%nat -> _ = None,
    H : _ ?n = Some _ |- _ =>
      rewrite (L n) in H by lia; discriminate H
  end.

Ltac at_call :=
  first [ congruence
        | left; congruence
        | right; cbn [tick]; lia
        | exfalso; first_fault ].

(** The call at which the environment first raises is the point where
    the iteration ends, unless the iteration ends before it makes that
    call: an exception can leave the body from each of its calls. *)
Lemma fault_leaves_body (args : Args) (show : bool) (cap : capture)
    (e : IterEnv) (v : Vars) (w : World) (k : nat) (x : exn) :
  iter_faults e k = Some x ->
  (forall j : nat, (j < k)%nat -> iter_faults e j = None) ->
  wp (loop_body args show cap e)
     (fun r _ w' => r = Exc x \/ (tick w' <= k)%nat)
     v (enter (iter_faults e) w).
Proof.
  intros Hk Hlt. unfold_body. wp_run.
  all: do 12 (destruct k as [ | k ]; [ solve [ at_call ] | ]).
  all: solve [ at_call ].
Qed.

(** C7: when the body of the loop is left by a [KeyboardInterrupt], the
    session exits with status 0; when it is left by any other exception,
    the session exits with status 2 and the exception is logged; in both
    cases [main] ends by its own exit, not by the exception.  The
    exception leaves the body from whichever call the environment raises
    it at, if the iteration gets that far.  The exits are those of the
    body of [main] on any arguments, and so of [main] on every command
    line that parses to them. *)
Theorem interrupt_and_error_exits (args : Args) (env : Env) (cap : capture)
    (w_a : World) (v0 : Vars) (w_s : World)
    (x : exn) (v : Vars) (w : World) :
  acquire args (open_env env) tt (enter (open_faults (open_env env)) world0) =
    (Val (inr cap), tt, w_a) ->
  startup (start_env env) tt (enter (start_faults (start_env env)) w_a) =
    (Val v0, tt, w_s) ->
  fault_free (fin_faults (fin_env env)) ->
  while_true args (resolved_show args) cap (script env) v0 w_s = Raised x v w ->
  (exists w' : World,
      main_body args env =
        (Some (Exited match x with
                      | KeyboardInterrupt => 0
                      | Exception _ => 2
                      end), w') /\
      (forall argv : list token,
          parse_args argv = Parsed args ->
          main argv env =
            (Some (Exited match x with
                          | KeyboardInterrupt => 0
                          | Exception _ => 2
                          end), w')) /\
      In match x with
         | KeyboardInterrupt => EvLog INFO MsgInterrupt
         | Exception _ => EvLog ERROR (MsgUnexpected x)
         end (trace w') /\
      occurrences (is_release cap) (trace w') = 1%nat) /\
  (forall (a : Args) (show : bool) (e : IterEnv) (v1 : Vars) (w1 : World)
          (k : nat) (y : exn) (r : Res ctl) (v2 : Vars) (w2 : World),
      iter_faults e k = Some y ->
      (forall j : nat, (j < k)%nat -> iter_faults e j = None) ->
      loop_body a show cap e v1 (enter (iter_faults e) w1) = (r, v2, w2) ->
      r = Exc y \/ (tick w2 <= k)%nat).
Proof.
  intros A B Hf R. split.
  - assert (Hend : ended (while_true args (resolved_show args) cap
                                     (script env) v0 w_s))
      by (rewrite R; exact I).
    destruct (session_ends args env cap w_a v0 w_s A B Hf Hend)
      as [loop_events [w' [E [Q [T [_ [R0 _]]]]]]].
    rewrite R in E, T. cbn [terminal_code handler_events vars_of] in E, T.
    assert (E' : main_body args env =
                 (Some (Exited match x with
                               | KeyboardInterrupt => 0
                               | Exception _ => 2
                               end), w'))
      by (rewrite E; destruct x; reflexivity).
    exists w'. split; [ exact E' | split; [ | split ] ].
    + intros argv P. rewrite (main_parsed argv args env P). exact E'.
    + rewrite T. apply in_or_app. right. apply in_or_app. right.
      apply in_or_app. left. destruct x; left; reflexivity.
    + destruct (quiet_no_release cap loop_events Q) as [Rl _].
      rewrite T. rewrite !occurrences_app, R0, Rl.
      unfold occurrences.
      destruct x; cbn [filter is_release finally_events handler_events app];
        rewrite Nat.eqb_refl; reflexivity.
  - intros a show e v1 w1 k y r v2 w2 Hk Hlt E.
    pose proof (wp_elim _ _ _ _
                  (fault_leaves_body a show cap e v1 w1 k y Hk Hlt)) as G.
    rewrite E in G. exact G.
Qed.

Lemma interrupt_and_error_exits_witness :
  (exists w' : World,
      main [] (struck_session 5 KeyboardInterrupt) = (Some (Exited 0), w') /\
      In (EvLog INFO MsgInterrupt) (trace w') /\
      occurrences (is_release 0%nat) (trace w') = 1%nat) /\
  (exists w' : World,
      main [] (struck_session 2 (Exception "cv2.error")) =
        (Some (Exited 2), w') /\
      In (EvLog ERROR (MsgUnexpected (Exception "cv2.error"))) (trace w') /\
      occurrences (is_release 0%nat) (trace w') = 1%nat).
Proof.
  split.
  - destruct (interrupt_and_error_exits webcam_args
                (struck_session 5 KeyboardInterrupt) 0%nat
                (snd (acquire webcam_args calm_open tt (enter no_faults world0)))
                (mkVars [] 10 0 10 0 EXIT_OK)
                (snd (startup (mkStartEnv no_faults 10) tt
                        (enter no_faults
                           (snd (acquire webcam_args calm_open tt
                                   (enter no_faults world0))))))
                KeyboardInterrupt
                (vars_of (while_true webcam_args true 0%nat
                            (script (struck_session 5 KeyboardInterrupt))
                            (mkVars [] 10 0 10 0 EXIT_OK) world0))
                (world_of (while_true webcam_args true 0%nat
                             (script (struck_session 5 KeyboardInterrupt))
                             (mkVars [] 10 0 10 0 EXIT_OK)
                             (snd (startup (mkStartEnv no_faults 10) tt
                                     (enter no_faults
                                        (snd (acquire webcam_args calm_open tt
                                                (enter no_faults world0))))))))
                eq_refl eq_refl)
      as [[w' [_ [E [L R]]]] _].
    + intros k. reflexivity.
    + vm_compute. reflexivity.
    + exists w'. split; [ exact (E [] eq_refl) | split; [ exact L | exact R ] ].
  - destruct (interrupt_and_error_exits webcam_args
                (struck_session 2 (Exception "cv2.error")) 0%nat
                (snd (acquire webcam_args calm_open tt (enter no_faults world0)))
                (mkVars [] 10 0 10 0 EXIT_OK)
                (snd (startup (mkStartEnv no_faults 10) tt
                        (enter no_faults
                           (snd (acquire webcam_args calm_open tt
                                   (enter no_faults world0))))))
                (Exception "cv2.error")
                (vars_of (while_true webcam_args true 0%nat
                            (script (struck_session 2 (Exception "cv2.error")))
                            (mkVars [] 10 0 10 0 EXIT_OK) world0))
                (world_of (while_true webcam_args true 0%nat
                             (script (struck_session 2 (Exception "cv2.error")))
                             (mkVars [] 10 0 10 0 EXIT_OK)
                             (snd (startup (mkStartEnv no_faults 10) tt
                                     (enter no_faults
                                        (snd (acquire webcam_args calm_open tt
                                                (enter no_faults world0))))))))
                eq_refl eq_refl)
      as [[w' [_ [E [L R]]]] _].
    + intros k. reflexivity.
    + vm_compute. reflexivity.
    + exists w'. split; [ exact (E [] eq_refl) | split; [ exact L | exact R ] ].
Defined.

(** ** Establishing the connection *)






(** C5: on the network source with a path, when no attempt yields an
    opened capture, [open_capture] creates exactly 3 captures, releases
    each one before it goes on, sleeps 2 s after the first and after the
    second but not after the third, reports the failure and returns
    [None]. *)
Theorem rtsp_retries_exhausted (oe : OpenEnv) (path : option string)
    (p : string) (w : World) :
  path = Some p ->
  p <> ""%string ->
  fault_free (open_faults oe) ->
  (forall n : nat, is_opened oe n = false) ->
  exists w' : World,
    open_capture oe "rtsp" path tt (enter (open_faults oe) w) =
      (Val None, tt, w') /\
    captures w' = (captures w + 3)%nat /\
    trace w' = trace w ++
      [EvLog DEBUG (MsgRtspAttempt 1);
       EvVideoCapture (Path p) (captures w);
       EvIsOpened (captures w);
       EvRelease (captures w);
       EvLog DEBUG MsgRtspRetry;
       EvSleep 2;
       EvLog DEBUG (MsgRtspAttempt 2);
       EvVideoCapture (Path p) (captures w + 1)%nat;
       EvIsOpened (captures w + 1)%nat;
       EvRelease (captures w + 1)%nat;
       EvLog DEBUG MsgRtspRetry;
       EvSleep 2;
       EvLog DEBUG (MsgRtspAttempt 3);
       EvVideoCapture (Path p) (captures w + 2)%nat;
       EvIsOpened (captures w + 2)%nat;
       EvRelease (captures w + 2)%nat;
       EvLog ERROR MsgRtspAllFailed].
Proof.
  intros Hp Hne Hf Hclosed.
  assert (Hn : nonempty path = Some p).
  { subst path. cbn [nonempty]. apply String.eqb_neq in Hne.
    rewrite Hne. reflexivity. }
  pose proof (wp_elim (open_capture oe "rtsp" path)
    (fun r _ w' =>
       r = Val None /\
       captures w' = (captures w + 3)%nat /\
       trace w' = trace w ++
         [EvLog DEBUG (MsgRtspAttempt 1);
          EvVideoCapture (Path p) (captures w);
          EvIsOpened (captures w);
          EvRelease (captures w);
          EvLog DEBUG MsgRtspRetry;
          EvSleep 2;
          EvLog DEBUG (MsgRtspAttempt 2);
          EvVideoCapture (Path p) (captures w + 1)%nat;
          EvIsOpened (captures w + 1)%nat;
          EvRelease (captures w + 1)%nat;
          EvLog DEBUG MsgRtspRetry;
          EvSleep 2;
          EvLog DEBUG (MsgRtspAttempt 3);
          EvVideoCapture (Path p) (captures w + 2)%nat;
          EvIsOpened (captures w + 2)%nat;
          EvRelease (captures w + 2)%nat;
          EvLog ERROR MsgRtspAllFailed])
    tt (enter (open_faults oe) w)) as G.
  destruct (open_capture oe "rtsp" path tt (enter (open_faults oe) w))
    as [[r u] w'].
  cbn [fst snd] in G. destruct u.
  destruct G as [G1 [G2 G3]].
  - unfold_open. cbn [String.eqb Ascii.eqb Bool.eqb]. rewrite Hn.
    wp_run; path_done.
    split; [ reflexivity | ]. split; [ lia | ].
    rewrite <- !app_assoc. cbn [app].
    replace (Datatypes.S (captures w)) with (captures w + 1)%nat by lia.
    replace (Datatypes.S (captures w + 1)) with (captures w + 2)%nat by lia.
    reflexivity.
  - subst r. exists w'. split; [ reflexivity | split; assumption ].
Qed.

Lemma rtsp_retries_exhausted_witness :
  exists w' : World,
    open_capture (mkOpenEnv no_faults (fun _ => false) (fun _ => 0%Q))
                 "rtsp" (path rtsp_args) tt
                 (enter no_faults world0) = (Val None, tt, w') /\
    captures w' = 3%nat /\
    trace w' =
      [EvLog DEBUG (MsgRtspAttempt 1);
       EvVideoCapture (Path "rtsp://camera/stream") 0%nat;
       EvIsOpened 0%nat;
       EvRelease 0%nat;
       EvLog DEBUG MsgRtspRetry;
       EvSleep 2;
       EvLog DEBUG (MsgRtspAttempt 2);
       EvVideoCapture (Path "rtsp://camera/stream") 1%nat;
       EvIsOpened 1%nat;
       EvRelease 1%nat;
       EvLog DEBUG MsgRtspRetry;
       EvSleep 2;
       EvLog DEBUG (MsgRtspAttempt 3);
       EvVideoCapture (Path "rtsp://camera/stream") 2%nat;
       EvIsOpened 2%nat;
       EvRelease 2%nat;
       EvLog ERROR MsgRtspAllFailed].
Proof.
  apply (rtsp_retries_exhausted
           (mkOpenEnv no_faults (fun _ => false) (fun _ => 0%Q))
           (path rtsp_args) "rtsp://camera/stream" world0).
  - reflexivity.
  - discriminate.
  - intros k. reflexivity.
  - intros n. reflexivity.
Defined.

(** ** The rate that the loop draws *)

Lemma wp_estimate_nonempty {S} (d : list Q) P (s : S) (w : World) :
  d <> [] -> P (Val (spec_fps d)) s w -> wp (estimate_fps d) P s w.
Proof.
  intros Hd H. unfold wp. rewrite estimate_fps_nonempty by exact Hd. exact H.
Qed.

Lemma window_nonempty (d : list Q) (x : Q) :
  deque_append FPS_FRAME_COUNT d x <> [].
Proof. apply deque_append_nonempty. unfold FPS_FRAME_COUNT. lia. Qed.

Ltac wp_step_rate :=
  lazymatch goal with
  | |- wp (estimate_fps _) _ _ _ =>
      apply wp_estimate_nonempty;
      [ cbn [frame_durations observe_frame]; apply window_nonempty | ]
  | _ => wp_step
  end.

Ltac drawn_rate :=
  let f := fresh "f" in
  let Hin := fresh "Hin" in
  intros f Hin; cbn [In] in Hin;
  repeat (destruct Hin as [Hin | Hin];
          [ try discriminate Hin;
            try (inversion Hin; subst; reflexivity) | ]);
  try contradiction.

(** Whatever rate an iteration draws is the estimate, as the
    specification words it, on the window just updated. *)
Lemma loop_body_rate (args : Args) (show : bool) (cap : capture)
    (e : IterEnv) (v : Vars) (w : World) :
  wp (loop_body args show cap e)
     (fun _ v' w' =>
        exists evs : list event,
          trace w' = trace w ++ evs /\
          forall f : Q,
            In (EvDrawFps f) evs -> f = spec_fps (frame_durations v'))
     v (enter (iter_faults e) w).
Proof.
  unfold_body. repeat (wp_red; wp_step_rate); wp_red.
  all: eexists; split;
    [ first [ rewrite <- ?app_assoc; cbn [app]; reflexivity
            | symmetry; apply app_nil_r ] | ].
  all: cbn [frame_durations set_consecutive_failures set_exit_code
              observe_frame].
  all: drawn_rate.
Qed.

Lemma spec_fps_cases (window : list Q) :
  ((0 < mean window)%Q -> spec_fps window = (1 / mean window)%Q) /\
  ((mean window <= 0)%Q -> spec_fps window = 0%Q).
Proof.
  unfold spec_fps. destruct (Qlt_le_dec 0 (mean window)) as [L | L]; split.
  - reflexivity.
  - intros H. exfalso. exact (Qlt_not_le _ _ L H).
  - intros H. exfalso. exact (Qlt_not_le _ _ H L).
  - reflexivity.
Qed.

(** C6: after any sequence of observed durations, and from any window,
    the estimator returns (it does not raise) 1 / mean of the window when
    the mean is strictly positive and 0 otherwise; a first duration of 0,
    a window of size 1, yields 0; the estimate raises on no window at all;
    and the rate that an iteration of the loop draws is this value on the
    window it has just updated. *)
Theorem estimator_output :
  (forall (window : list Q) (duration : Q),
      observe window duration =
      (deque_append FPS_FRAME_COUNT window duration,
       Val (spec_fps (deque_append FPS_FRAME_COUNT window duration)))) /\
  (forall (ds : list Q) (d : Q),
      observe (feed ds) d =
      (feed (ds ++ [d]), Val (spec_fps (feed (ds ++ [d]))))) /\
  (forall window : list Q,
      ((0 < mean window)%Q -> spec_fps window = (1 / mean window)%Q) /\
      ((mean window <= 0)%Q -> spec_fps window = 0%Q)) /\
  (forall (window : list Q) (v : Vars) (w : World),
      exists fps : Q, estimate_fps window v w = (Val fps, v, w)) /\
  (forall d : Q, feed [d] = [d] /\ (mean [d] == d)%Q) /\
  observe [] 0%Q = ([0%Q], Val 0%Q) /\
  (forall (args : Args) (show : bool) (cap : capture) (e : IterEnv)
          (v : Vars) (w : World) (r : Res ctl) (v' : Vars) (w' : World),
      loop_body args show cap e v (enter (iter_faults e) w) = (r, v', w') ->
      exists evs : list event,
        trace w' = trace w ++ evs /\
        forall f : Q,
          In (EvDrawFps f) evs -> f = spec_fps (frame_durations v')).
Proof.
  assert (G : forall window duration,
      observe window duration =
      (deque_append FPS_FRAME_COUNT window duration,
       Val (spec_fps (deque_append FPS_FRAME_COUNT window duration)))).
  { intros window duration. unfold observe.
    rewrite estimate_fps_nonempty; [ reflexivity | apply window_nonempty ]. }
  split; [ exact G | ].
  split; [ intros ds d; rewrite feed_snoc; apply G | ].
  split; [ exact spec_fps_cases | ].
  split.
  { intros [ | a l ] v w.
    - exists 0%Q. reflexivity.
    - exists (spec_fps (a :: l)). apply estimate_fps_nonempty. discriminate. }
  split.
  { intros d. split; [ reflexivity | ]. unfold mean, py_sum. simpl. field. }
  split; [ reflexivity | ].
  intros args show cap e v w r v' w' E.
  pose proof (wp_elim _ _ _ _ (loop_body_rate args show cap e v w)) as H.
  rewrite E in H. exact H.
Qed.

Lemma estimator_output_witness :
  observe [0.5%Q] 0.5%Q = ([0.5%Q; 0.5%Q], Val (spec_fps [0.5%Q; 0.5%Q])) /\
  spec_fps [0.5%Q; 0.5%Q] = (1 / mean [0.5%Q; 0.5%Q])%Q.
Proof.
  split.
  - exact (proj1 estimator_output [0.5%Q] 0.5%Q).
  - apply (proj1 (proj1 (proj2 (proj2 estimator_output)) [0.5%Q; 0.5%Q])).
    reflexivity.
Defined.

(** C9: the window never holds more than 60 durations, whatever is
    appended to it and however long the loop runs, and an append to a full
    window drops exactly the oldest duration and keeps the others in their
    order, the new one last. *)
Theorem window_bounded_evicts_oldest :
  (forall ds : list Q, (length (feed ds) <= 60)%nat) /\
  (forall (d : list Q) (x : Q),
      (length d <= 60)%nat ->
      (length (deque_append FPS_FRAME_COUNT d x) <= 60)%nat) /\
  (forall (oldest : Q) (others : list Q) (x : Q),
      length (oldest :: others) = 60%nat ->
      deque_append FPS_FRAME_COUNT (oldest :: others) x = others ++ [x]) /\
  (forall (d : list Q) (x : Q),
      (length d < 60)%nat ->
      deque_append FPS_FRAME_COUNT d x = d ++ [x]) /\
  (forall (args : Args) (show : bool) (cap : capture)
          (script : list IterEnv) (v : Vars) (w : World),
      (length (frame_durations v) <= 60)%nat ->
      (length (frame_durations
                 (vars_of (while_true args show cap script v w))) <= 60)%nat).
Proof.
  split; [ exact feed_length | ].
  split; [ intros d x H; apply deque_append_length; exact H | ].
  split.
  { intros oldest others x H.
    rewrite deque_append_full by exact H. reflexivity. }
  split; [ intros d x H; apply deque_append_below; exact H | ].
  intros args show cap script v w H.
  apply while_true_window. exact H.
Qed.

Lemma window_bounded_evicts_oldest_witness :
  deque_append FPS_FRAME_COUNT (1%Q :: repeat 2%Q 59) 3%Q =
    repeat 2%Q 59 ++ [3%Q] /\
  (length (frame_durations
             (vars_of (while_true webcam_args true 0%nat
                         [good_iter 1; good_iter 2] vars0 world0))) <= 60)%nat.
Proof.
  split.
  - apply (proj1 (proj2 (proj2 window_bounded_evicts_oldest))).
    reflexivity.
  - apply (proj2 (proj2 (proj2 (proj2 window_bounded_evicts_oldest)))).
    cbn. lia.
Defined.

(** * Further properties of the loop *)

(** ** Steady runs *)

Lemma deliveries_cons (e : IterEnv) (rest : list IterEnv) :
  deliveries (e :: rest) =
  (if read_ret e then 1 else 0) + deliveries rest.
Proof.
  unfold deliveries. cbn [filter]. destruct (read_ret e).
  - cbn [length]. rewrite Nat2Z.inj_succ. lia.
  - lia.
Qed.

(** A script of steady iterations on which the counter stays under the
    ceiling leaves the loop running; every delivery is counted, and the
    counter follows the reads. *)
Lemma steady_run (args : Args) (show : bool) (cap : capture)
    (script : list IterEnv) :
  forall (v : Vars) (w : World),
    Forall (steady args) script ->
    stays_below (consecutive_failures v) script ->
    exists (v' : Vars) (w' : World),
      while_true args show cap script v w = Running v' w' /\
      frame_count v' = frame_count v + deliveries script /\
      consecutive_failures v' =
        fold_left counter_step script (consecutive_failures v) /\
      start_time v' = start_time v /\
      exit_code v' = exit_code v /\
      extends (trace w) (trace w').
Proof.
  induction script as [ | e rest IH ]; intros v w Hall Hbelow.
  - exists v, w. cbn [while_true fold_left]. unfold deliveries. cbn.
    repeat split; try lia. apply extends_refl.
  - inversion Hall as [ | e' rest' He Hrest ]; subst.
    cbn [stays_below] in Hbelow. destruct Hbelow as [Hc Hb].
    cbn [while_true fold_left]. rewrite deliveries_cons.
    destruct He as [Hok | [Hfail Hs]].
    + destruct (delivered_continues args show cap e v w Hok)
        as [w1 [evs [E1 [T1 [Q1 C1]]]]].
      rewrite E1.
      assert (Hr : read_ret e = true) by (destruct Hok as [Hr _]; exact Hr).
      unfold counter_step in Hc, Hb |- *. rewrite Hr in Hc, Hb |- *.
      destruct (IH (observe_frame (clock e) (set_consecutive_failures 0 v)) w1
                  Hrest Hb) as [v' [w' [E [F [C [S0 [X T]]]]]]].
      exists v', w'. split; [ exact E | ].
      split; [ rewrite F; cbn [frame_count observe_frame
                                 set_consecutive_failures]; lia | ].
      split; [ exact C | ]. split; [ exact S0 | ]. split; [ exact X | ].
      apply (extends_trans _ (trace w1)); [ | exact T ].
      exists ([EvRead cap true; EvPerfCounter (clock e)] ++ evs).
      split; [ exact T1 | ]. cbn [app forallb quiet]. exact Q1.
    + assert (Hr : read_ret e = false) by (destruct Hfail as [Hr _]; exact Hr).
      unfold counter_step in Hc, Hb |- *. rewrite Hr in Hc, Hb |- *.
      rewrite (failed_read_backs_off args show cap e v w Hfail Hs Hc).
      match goal with
      | |- context [ while_true _ _ _ rest ?v1 ?w1 ] =>
          destruct (IH v1 w1 Hrest Hb) as [v' [w' [E [F [C [S0 [X T]]]]]]]
      end.
      exists v', w'. split; [ exact E | ].
      split; [ rewrite F; cbn [frame_count set_consecutive_failures]; lia | ].
      split; [ exact C | ]. split; [ exact S0 | ]. split; [ exact X | ].
      apply (extends_trans _ (trace w ++ [EvRead cap false; EvSleep 0.02%Q]));
        [ | exact T ].
      exists [EvRead cap false; EvSleep 0.02%Q]. split; reflexivity.
Qed.

Lemma delivered_is_steady (args : Args) (oks : list IterEnv) :
  Forall delivered_plain oks -> Forall (steady args) oks.
Proof.
  intros H. apply Forall_forall. intros e He. left.
  exact (proj1 (Forall_forall _ _) H e He).
Qed.

Lemma delivered_stays_below (oks : list IterEnv) :
  Forall delivered_plain oks -> forall c : Z, c < CONSEC_FAIL_MAX ->
  stays_below c oks /\
  deliveries oks = Z.of_nat (length oks) /\
  (oks <> [] -> fold_left counter_step oks c = 0).
Proof.
  induction 1 as [ | e rest [Hr _] Hrest IH ]; intros c Hc.
  - split; [ exact I | ]. split; [ reflexivity | ]. intros N. congruence.
  - assert (Hs : counter_step c e = 0) by (unfold counter_step; rewrite Hr; reflexivity).
    destruct (IH 0) as [B [D F]]; [ reflexivity | ].
    split; [ | split ].
    + cbn [stays_below]. rewrite Hs. split; [ reflexivity | exact B ].
    + rewrite deliveries_cons, Hr, D. cbn [length]. rewrite Nat2Z.inj_succ. lia.
    + intros _. cbn [fold_left]. rewrite Hs.
      destruct rest as [ | e' rest' ]; [ reflexivity | ].
      apply F. discriminate.
Qed.

(** X1: a run of iterations that each deliver a frame, with no quit key,
    no closed window and no exception, leaves the loop running on any
    source; the frame counter has grown by the number of iterations, the
    counter of consecutive failures is 0 and the exit code is untouched. *)
Theorem deliveries_are_counted (args : Args) (show : bool) (cap : capture)
    (oks : list IterEnv) (v : Vars) (w : World) :
  oks <> [] ->
  consecutive_failures v < CONSEC_FAIL_MAX ->
  Forall delivered_plain oks ->
  exists (v' : Vars) (w' : World),
    while_true args show cap oks v w = Running v' w' /\
    frame_count v' = frame_count v + Z.of_nat (length oks) /\
    consecutive_failures v' = 0 /\
    exit_code v' = exit_code v.
Proof.
  intros Hne Hc Hall.
  destruct (delivered_stays_below oks Hall (consecutive_failures v) Hc)
    as [B [D F]].
  destruct (steady_run args show cap oks v w (delivered_is_steady args oks Hall) B)
    as [v' [w' [E [Fc [C [_ [X _]]]]]]].
  exists v', w'. split; [ exact E | ].
  split; [ rewrite Fc, D; reflexivity | ].
  split; [ rewrite C; apply F; exact Hne | exact X ].
Qed.

Lemma deliveries_are_counted_witness :
  exists (v' : Vars) (w' : World),
    while_true file_args true 0%nat [good_iter 1; good_iter 2; good_iter 3]
               vars0 world0 = Running v' w' /\
    frame_count v' = frame_count vars0 + Z.of_nat 3 /\
    consecutive_failures v' = 0 /\
    exit_code v' = exit_code vars0.
Proof.
  apply (deliveries_are_counted file_args true 0%nat
           [good_iter 1; good_iter 2; good_iter 3] vars0 world0).
  - discriminate.
  - reflexivity.
  - repeat constructor; apply good_iter_delivered.
Defined.

(** X2: on a source that is not a file, any mix of delivered frames and
    failed reads in which the failures never come 30 in a row leaves the
    loop running: the frames delivered are all counted, the exit code is
    untouched, and the counter of consecutive failures is the length of
    the run of failures the script ends with. *)
Theorem transient_failures_are_survived (args : Args) (show : bool)
    (cap : capture) (script : list IterEnv) (v : Vars) (w : World) :
  source args <> "file"%string ->
  Forall (fun e => delivered_plain e \/ not_delivered e) script ->
  stays_below (consecutive_failures v) script ->
  exists (v' : Vars) (w' : World),
    while_true args show cap script v w = Running v' w' /\
    frame_count v' = frame_count v + deliveries script /\
    consecutive_failures v' =
      fold_left counter_step script (consecutive_failures v) /\
    exit_code v' = exit_code v.
Proof.
  intros Hs Hall Hb.
  assert (St : Forall (steady args) script).
  { apply Forall_forall. intros e He.
    destruct (proj1 (Forall_forall _ _) Hall e He) as [Hd | Hn].
    - left. exact Hd.
    - right. split; [ exact Hn | apply source_neq; exact Hs ]. }
  destruct (steady_run args show cap script v w St Hb)
    as [v' [w' [E [Fc [C [_ [X _]]]]]]].
  exists v', w'. repeat split; assumption.
Qed.

Lemma transient_failures_are_survived_witness :
  exists (v' : Vars) (w' : World),
    while_true webcam_args true 0%nat
      (repeat failing_iter 29 ++ [good_iter 1] ++ repeat failing_iter 29
         ++ [good_iter 2; failing_iter])
      vars0 world0 = Running v' w' /\
    frame_count v' =
      frame_count vars0 +
      deliveries (repeat failing_iter 29 ++ [good_iter 1]
                    ++ repeat failing_iter 29 ++ [good_iter 2; failing_iter]) /\
    consecutive_failures v' =
      fold_left counter_step
        (repeat failing_iter 29 ++ [good_iter 1] ++ repeat failing_iter 29
           ++ [good_iter 2; failing_iter])
        (consecutive_failures vars0) /\
    exit_code v' = exit_code vars0.
Proof.
  apply (transient_failures_are_survived webcam_args true 0%nat _ vars0 world0).
  - discriminate.
  - assert (Fs : forall k, Forall (fun e => delivered_plain e \/ not_delivered e)
                             (repeat failing_iter k)).
    { intros k. apply Forall_forall. intros e He. apply repeat_spec in He.
      subst e. right. exact failing_iter_not_delivered. }
    apply Forall_app. split; [ apply Fs | ].
    apply Forall_app. split;
      [ constructor; [ left; apply good_iter_delivered | constructor ] | ].
    apply Forall_app. split; [ apply Fs | ].
    constructor; [ left; apply good_iter_delivered | ].
    constructor; [ right; exact failing_iter_not_delivered | constructor ].
  - vm_compute. repeat split.
Defined.

(** ** Invariants of the loop, whatever the environment answers *)

(** One iteration keeps the counter between 0 and the ceiling, and the
    loop only continues with the counter under the ceiling. *)
Lemma loop_body_counter_range (args : Args) (show : bool) (cap : capture)
    (e : IterEnv) (v : Vars) (w : World) :
  0 <= consecutive_failures v < CONSEC_FAIL_MAX ->
  wp (loop_body args show cap e)
     (fun r v' _ =>
        0 <= consecutive_failures v' <= CONSEC_FAIL_MAX /\
        (r = Val Continue -> consecutive_failures v' < CONSEC_FAIL_MAX))
     v (enter (iter_faults e) w).
Proof.
  intros Hc. unfold_body. wp_run.
  all: leb_hyps.
  all: cbn [consecutive_failures set_consecutive_failures set_exit_code
              observe_frame].
  all: unfold CONSEC_FAIL_MAX in *.
  all: split; [ lia | intros E; try discriminate E; lia ].
Qed.

(** X3: from a counter of consecutive failures in [0, 30), whatever the
    reads return and whatever raises, the counter never leaves [0, 30],
    and while the loop is running it is below 30. *)
Theorem counter_stays_in_range (args : Args) (show : bool) (cap : capture)
    (script : list IterEnv) :
  forall (v : Vars) (w : World),
    0 <= consecutive_failures v < CONSEC_FAIL_MAX ->
    0 <= consecutive_failures
           (vars_of (while_true args show cap script v w)) <= 30 /\
    (forall (v' : Vars) (w' : World),
        while_true args show cap script v w = Running v' w' ->
        consecutive_failures v' < 30).
Proof.
  induction script as [ | e rest IH ]; intros v w Hc.
  - cbn [while_true vars_of]. unfold CONSEC_FAIL_MAX in Hc.
    split; [ lia | ]. intros v' w' E. inversion E; subst. lia.
  - cbn [while_true].
    pose proof (wp_elim _ _ _ _
                  (loop_body_counter_range args show cap e v w Hc)) as G.
    destruct (loop_body args show cap e v (enter (iter_faults e) w))
      as [[r v1] w1].
    cbn [fst snd] in G. destruct G as [G1 G2].
    destruct r as [ [ | ] | x ].
    + apply IH. split; [ lia | apply G2; reflexivity ].
    + cbn [vars_of]. split; [ exact G1 | ]. intros v' w' E. discriminate E.
    + cbn [vars_of]. split; [ exact G1 | ]. intros v' w' E. discriminate E.
Qed.

Lemma counter_stays_in_range_witness :
  0 <= consecutive_failures
         (vars_of (while_true webcam_args true 0%nat
                     (repeat failing_iter 40) vars0 world0)) <= 30 /\
  (forall (v' : Vars) (w' : World),
      while_true webcam_args true 0%nat (repeat failing_iter 40) vars0 world0 =
        Running v' w' ->
      consecutive_failures v' < 30).
Proof.
  apply (counter_stays_in_range webcam_args true 0%nat
           (repeat failing_iter 40) vars0 world0).
  split; reflexivity.
Defined.

(** ** The exit codes of the process *)

Lemma acquire_code (args : Args) (oe : OpenEnv) (w : World) :
  wp (acquire args oe)
     (fun r _ _ => forall code : Z, r = Val (inl code) -> code = EXIT_INIT_FAIL)
     tt (enter (open_faults oe) w).
Proof.
  unfold_open. wp_run.
  all: intros code E; try discriminate E.
  all: inversion E; reflexivity.
Qed.

Lemma startup_code (se : StartEnv) (w : World) :
  wp (startup se)
     (fun r _ _ => forall v0 : Vars, r = Val v0 -> exit_code v0 = EXIT_OK)
     tt (enter (start_faults se) w).
Proof.
  unfold startup, perf_counter, log. wp_run.
  all: intros v0 E; try discriminate E.
  inversion E. reflexivity.
Qed.

(** The loop leaves by [break] with one of its two codes, and keeps the
    exit code it started with in every other case. *)
Lemma while_true_code (args : Args) (show : bool) (cap : capture)
    (script : list IterEnv) :
  forall (v : Vars) (w : World),
    match while_true args show cap script v w with
    | Broke v' _ => exit_code v' = EXIT_OK \/ exit_code v' = EXIT_RUNTIME_FAIL
    | Running v' _ | Raised _ v' _ => exit_code v' = exit_code v
    end.
Proof.
  induction script as [ | e rest IH ]; intros v w.
  - reflexivity.
  - cbn [while_true].
    pose proof (wp_elim _ _ _ _ (loop_body_exit args show cap e v w)) as G.
    destruct (loop_body args show cap e v (enter (iter_faults e) w))
      as [[r v1] w1].
    cbn [fst snd] in G.
    destruct r as [ [ | ] | x ].
    + specialize (IH v1 w1).
      destruct (while_true args show cap rest v1 w1); congruence.
    + destruct G as [G | [G _]]; [ left | right ]; exact G.
    + exact G.
Qed.

Lemma handlers_code (left : Res unit) (v : Vars) (w : World) :
  wp (handlers left)
     (fun _ v' _ =>
        exit_code v' = exit_code v \/
        exit_code v' = EXIT_OK \/ exit_code v' = EXIT_RUNTIME_FAIL)
     v w.
Proof.
  destruct left as [ [] | [ | name ] ]; unfold handlers, log; wp_run.
  all: cbn [exit_code set_exit_code]; auto.
Qed.

Lemma finally_block_code (cap : option capture) (fe : FinEnv)
    (v : Vars) (w : World) :
  wp (finally_block cap fe)
     (fun r _ _ => forall code : Z, r = Val code -> code = exit_code v)
     v w.
Proof.
  unfold finally_block, cap_release, perf_counter, log, py_div.
  repeat (wp_red;
          first [ wp_step
                | match goal with
                  | |- wp (if Qeq_bool ?a ?b then _ else _) _ _ _ =>
                      destruct (Qeq_bool a b)
                  end ]).
  all: wp_red; intros code E; try discriminate E.
  all: inversion E; reflexivity.
Qed.

Lemma teardown_code (cap : option capture) (fe : FinEnv) (left : Res unit)
    (v : Vars) (w : World) (c : Z) (v' : Vars) (w' : World) :
  teardown cap fe left v w = (Exited c, v', w') ->
  c = exit_code v \/ c = EXIT_OK \/ c = EXIT_RUNTIME_FAIL.
Proof.
  unfold teardown. intros E.
  pose proof (wp_elim _ _ _ _ (handlers_code left v (enter (fin_faults fe) w)))
    as H.
  destruct (handlers left v (enter (fin_faults fe) w)) as [[r1 v1] w1].
  cbn [fst snd] in H.
  pose proof (wp_elim _ _ _ _ (finally_block_code cap fe v1 w1)) as F.
  destruct (finally_block cap fe v1 w1) as [[r2 v2] w2].
  cbn [fst snd] in F.
  destruct r2 as [code | x]; [ | discriminate E ].
  inversion E; subst. rewrite (F c eq_refl). exact H.
Qed.

(** X4: whatever the command line and whatever the environment answers
    or raises, when [main] ends by [sys.exit] its status is 0, 1 or 2. *)
Theorem exit_status_is_0_1_or_2 (argv : list token) (env : Env)
    (c : Z) (w : World) :
  main argv env = (Some (Exited c), w) ->
  c = 0 \/ c = 1 \/ c = 2.
Proof.
  unfold main. intros E.
  destruct (parse_args argv) as [ args | status ] eqn:P.
  2:{ inversion E; subst.
      destruct (parse_tokens_status argv defaults c P) as [H | [H _]];
        [ right; right; exact H | left; exact H ]. }
  destruct (setup_logger (log_level args)) as [ n | x ]; [ | discriminate E ].
  unfold main_body in E.
  pose proof (wp_elim _ _ _ _
                (acquire_code args (open_env env) world0)) as A.
  destruct (acquire args (open_env env) tt
              (enter (open_faults (open_env env)) world0)) as [[r u] w_a].
  cbn [fst snd] in A.
  destruct r as [ [code | cap] | x ]; [ | | discriminate E ].
  - inversion E; subst. right. left. exact (A c eq_refl).
  - pose proof (wp_elim _ _ _ _ (startup_code (start_env env) w_a)) as S0.
    destruct (startup (start_env env) tt
                (enter (start_faults (start_env env)) w_a)) as [[r0 u0] w_s].
    cbn [fst snd] in S0.
    destruct r0 as [v0 | x]; [ | discriminate E ].
    specialize (S0 v0 eq_refl).
    pose proof (while_true_code args (resolved_show args) cap (script env)
                  v0 w_s) as L.
    destruct (while_true args (resolved_show args) cap (script env) v0 w_s)
      as [ v1 w1 | v1 w1 | x v1 w1 ]; [ discriminate E | | ].
    + destruct (teardown (Some cap) (fin_env env) (Val tt) v1 w1)
        as [[p v2] w2] eqn:T.
      inversion E; subst.
      destruct (teardown_code _ _ _ _ _ _ _ _ T) as [H | [H | H]];
        unfold EXIT_OK, EXIT_RUNTIME_FAIL in *; destruct L; lia.
    + destruct (teardown (Some cap) (fin_env env) (Exc x) v1 w1)
        as [[p v2] w2] eqn:T.
      inversion E; subst.
      destruct (teardown_code _ _ _ _ _ _ _ _ T) as [H | [H | H]];
        unfold EXIT_OK, EXIT_RUNTIME_FAIL in *; lia.
Qed.

Lemma exit_status_is_0_1_or_2_witness : 0 = 0 \/ 0 = 1 \/ 0 = 2.
Proof.
  apply (exit_status_is_0_1_or_2 [TSource "file"; TPath "clip.mp4"]
           two_frame_session 0
           (snd (main [TSource "file"; TPath "clip.mp4"] two_frame_session))).
  vm_compute. reflexivity.
Defined.

(** ** The ways a delivered frame ends the loop *)

Lemma land_255 (k : Z) : Z.land k 255 = k mod 256.
Proof. change 255 with (Z.ones 8). rewrite Z.land_ones by lia. reflexivity. Qed.

(** The trace after the run is the trace before it, then some events,
    then one last event. *)
Ltac ends_with :=
  eexists; split;
  [ f_equal;
    first [ rewrite <- ?app_assoc; cbn [app]; reflexivity
          | symmetry; apply app_nil_r ] | ].

(** X5: a delivered frame during which a key is read whose low byte is
    that of [q] ends the loop with [EXIT_OK]: the frame has been counted
    and shown once, the report of the key is the last event, the window
    is not polled, and the session exits with status 0. *)
Theorem quit_key_ends_loop (args : Args) (show : bool) (cap : capture)
    (e : IterEnv) (rest : list IterEnv) (v : Vars) (w : World) (fe : FinEnv) :
  read_ret e = true ->
  fault_free (iter_faults e) ->
  (exists h wd c, frame_shape e = [h; wd; c]) ->
  pressed e mod 256 = 113 ->
  fault_free (fin_faults fe) ->
  exists (v' : Vars) (w' : World) (evs : list event),
    while_true args show cap (e :: rest) v w = Broke v' w' /\
    exit_code v' = EXIT_OK /\
    frame_count v' = frame_count v + 1 /\
    consecutive_failures v' = 0 /\
    trace w' = (trace w ++ evs) ++ [EvLog INFO MsgQuitKey] /\
    occurrences is_imshow evs = 1%nat /\
    occurrences is_window_poll evs = 0%nat /\
    exists (v'' : Vars) (w'' : World),
      teardown (Some cap) fe (Val tt) v' w' = (Exited 0, v'', w'').
Proof.
  intros Hr Hf [h [wd [c Hshape]]] Hk Hfe.
  assert (K : (Z.land (pressed e) 255 =? ord_q) = true)
    by (apply Z.eqb_eq; rewrite land_255; exact Hk).
  pose proof (wp_elim (loop_body args show cap e)
    (fun r v' w' =>
       r = Val Break /\
       v' = set_exit_code EXIT_OK
              (observe_frame (clock e) (set_consecutive_failures 0 v)) /\
       exists evs,
         trace w' = (trace w ++ evs) ++ [EvLog INFO MsgQuitKey] /\
         occurrences is_imshow evs = 1%nat /\
         occurrences is_window_poll evs = 0%nat)
    v (enter (iter_faults e) w)) as G.
  cbn [while_true].
  destruct (loop_body args show cap e v (enter (iter_faults e) w))
    as [[r v'] w'].
  cbn [fst snd] in G.
  destruct G as [G1 [G2 [evs [G3 [G4 G5]]]]].
  - unfold_body. rewrite Hr, Hshape. wp_run; path_done.
    all: split; [ reflexivity | split; [ reflexivity | ] ].
    all: ends_with; split; reflexivity.
  - subst r v'. eexists. exists w', evs.
    split; [ reflexivity | ]. split; [ reflexivity | ].
    split; [ reflexivity | ]. split; [ reflexivity | ].
    split; [ exact G3 | ]. split; [ exact G4 | ]. split; [ exact G5 | ].
    match goal with
    | |- context [ teardown _ _ _ ?v1 ?w1 ] =>
        destruct (teardown_runs cap fe (Val tt) v1 w1 Hfe)
          as [v'' [w'' [E' _]]]
    end.
    exists v'', w''. exact E'.
Qed.

Lemma quit_key_ends_loop_witness :
  exists (v' : Vars) (w' : World) (evs : list event),
    while_true webcam_args true 0%nat
      (mkIterEnv no_faults true [480; 640; 3] 1 (113 + 256 * 4096) 1 :: [])
      vars0 world0 = Broke v' w' /\
    exit_code v' = EXIT_OK /\
    frame_count v' = frame_count vars0 + 1 /\
    consecutive_failures v' = 0 /\
    trace w' = (trace world0 ++ evs) ++ [EvLog INFO MsgQuitKey] /\
    occurrences is_imshow evs = 1%nat /\
    occurrences is_window_poll evs = 0%nat /\
    exists (v'' : Vars) (w'' : World),
      teardown (Some 0%nat) (calm_fin 2) (Val tt) v' w' =
      (Exited 0, v'', w'').
Proof.
  apply (quit_key_ends_loop webcam_args true 0%nat
           (mkIterEnv no_faults true [480; 640; 3] 1 (113 + 256 * 4096) 1)
           [] vars0 world0 (calm_fin 2)).
  - reflexivity.
  - intros k. reflexivity.
  - exists 480, 640, 3. reflexivity.
  - reflexivity.
  - intros k. reflexivity.
Defined.

(** X6: a delivered frame after which the window is reported as not
    visible (a value below 1, when no quit key was read) ends the loop
    with [EXIT_OK]: the frame has been counted and shown, the window was
    polled once after the key, and the session exits with status 0. *)
Theorem closed_window_ends_loop (args : Args) (show : bool) (cap : capture)
    (e : IterEnv) (rest : list IterEnv) (v : Vars) (w : World) (fe : FinEnv) :
  read_ret e = true ->
  fault_free (iter_faults e) ->
  (exists h wd c, frame_shape e = [h; wd; c]) ->
  pressed e mod 256 <> 113 ->
  (visible e < 1)%Q ->
  fault_free (fin_faults fe) ->
  exists (v' : Vars) (w' : World) (evs : list event),
    while_true args show cap (e :: rest) v w = Broke v' w' /\
    exit_code v' = EXIT_OK /\
    frame_count v' = frame_count v + 1 /\
    consecutive_failures v' = 0 /\
    trace w' = (trace w ++ evs) ++ [EvLog INFO MsgWindowClosed] /\
    occurrences is_imshow evs = 1%nat /\
    occurrences is_window_poll evs = 1%nat /\
    exists (v'' : Vars) (w'' : World),
      teardown (Some cap) fe (Val tt) v' w' = (Exited 0, v'', w'').
Proof.
  intros Hr Hf [h [wd [c Hshape]]] Hk Hv Hfe.
  assert (K : (Z.land (pressed e) 255 =? ord_q) = false)
    by (apply Z.eqb_neq; rewrite land_255; exact Hk).
  assert (V : Qltb (visible e) 1 = true) by (apply Qltb_lt; exact Hv).
  pose proof (wp_elim (loop_body args show cap e)
    (fun r v' w' =>
       r = Val Break /\
       v' = set_exit_code EXIT_OK
              (observe_frame (clock e) (set_consecutive_failures 0 v)) /\
       exists evs,
         trace w' = (trace w ++ evs) ++ [EvLog INFO MsgWindowClosed] /\
         occurrences is_imshow evs = 1%nat /\
         occurrences is_window_poll evs = 1%nat)
    v (enter (iter_faults e) w)) as G.
  cbn [while_true].
  destruct (loop_body args show cap e v (enter (iter_faults e) w))
    as [[r v'] w'].
  cbn [fst snd] in G.
  destruct G as [G1 [G2 [evs [G3 [G4 G5]]]]].
  - unfold_body. rewrite Hr, Hshape. wp_run; path_done.
    all: split; [ reflexivity | split; [ reflexivity | ] ].
    all: ends_with; split; reflexivity.
  - subst r v'. eexists. exists w', evs.
    split; [ reflexivity | ]. split; [ reflexivity | ].
    split; [ reflexivity | ]. split; [ reflexivity | ].
    split; [ exact G3 | ]. split; [ exact G4 | ]. split; [ exact G5 | ].
    match goal with
    | |- context [ teardown _ _ _ ?v1 ?w1 ] =>
        destruct (teardown_runs cap fe (Val tt) v1 w1 Hfe)
          as [v'' [w'' [E' _]]]
    end.
    exists v'', w''. exact E'.
Qed.

Lemma closed_window_ends_loop_witness :
  exists (v' : Vars) (w' : World) (evs : list event),
    while_true webcam_args true 0%nat
      (mkIterEnv no_faults true [480; 640; 3] 1 (-1) (-1) :: [])
      vars0 world0 = Broke v' w' /\
    exit_code v' = EXIT_OK /\
    frame_count v' = frame_count vars0 + 1 /\
    consecutive_failures v' = 0 /\
    trace w' = (trace world0 ++ evs) ++ [EvLog INFO MsgWindowClosed] /\
    occurrences is_imshow evs = 1%nat /\
    occurrences is_window_poll evs = 1%nat /\
    exists (v'' : Vars) (w'' : World),
      teardown (Some 0%nat) (calm_fin 2) (Val tt) v' w' =
      (Exited 0, v'', w'').
Proof.
  apply (closed_window_ends_loop webcam_args true 0%nat
           (mkIterEnv no_faults true [480; 640; 3] 1 (-1) (-1))
           [] vars0 world0 (calm_fin 2)).
  - reflexivity.
  - intros k. reflexivity.
  - exists 480, 640, 3. reflexivity.
  - discriminate.
  - reflexivity.
  - intros k. reflexivity.
Defined.

(** X7: a delivered frame whose shape has not exactly three dimensions
    (a grey-level frame, say) raises [ValueError] at the unpacking of the
    shape: the frame has been counted and the title drawn, nothing is
    shown, the exit code of the loop is untouched, and the session logs
    the error and exits with status 2. *)
Theorem bad_shape_ends_session (args : Args) (show : bool) (cap : capture)
    (e : IterEnv) (rest : list IterEnv) (v : Vars) (w : World) (fe : FinEnv) :
  read_ret e = true ->
  fault_free (iter_faults e) ->
  length (frame_shape e) <> 3%nat ->
  fault_free (fin_faults fe) ->
  exists (v' : Vars) (w' : World),
    while_true args show cap (e :: rest) v w =
      Raised (Exception "ValueError") v' w' /\
    frame_count v' = frame_count v + 1 /\
    exit_code v' = exit_code v /\
    trace w' = trace w ++ [EvRead cap true; EvPerfCounter (clock e);
                           EvDrawText; EvShape] /\
    exists (v'' : Vars) (w'' : World),
      teardown (Some cap) fe (Exc (Exception "ValueError")) v' w' =
        (Exited 2, v'', w'') /\
      In (EvLog ERROR (MsgUnexpected (Exception "ValueError"))) (trace w'').
Proof.
  intros Hr Hf Hshape Hfe.
  pose proof (wp_elim (loop_body args show cap e)
    (fun r v' w' =>
       r = Exc (Exception "ValueError") /\
       v' = observe_frame (clock e) (set_consecutive_failures 0 v) /\
       trace w' = trace w ++ [EvRead cap true; EvPerfCounter (clock e);
                              EvDrawText; EvShape])
    v (enter (iter_faults e) w)) as G.
  cbn [while_true].
  destruct (loop_body args show cap e v (enter (iter_faults e) w))
    as [[r v'] w'].
  cbn [fst snd] in G.
  destruct G as [G1 [G2 G3]].
  - unfold_body. rewrite Hr.
    destruct (frame_shape e) as [ | h [ | wd [ | c [ | d l ] ] ] ];
      cbn [length] in Hshape; try congruence.
    all: wp_run; path_done.
    all: split; [ reflexivity | split; [ reflexivity | ] ].
    all: rewrite <- !app_assoc; reflexivity.
  - subst r v'. eexists. exists w'.
    split; [ reflexivity | ]. split; [ reflexivity | ].
    split; [ reflexivity | ]. split; [ exact G3 | ].
    match goal with
    | |- context [ teardown _ _ _ ?v1 ?w1 ] =>
        destruct (teardown_runs cap fe (Exc (Exception "ValueError")) v1 w1 Hfe)
          as [v'' [w'' [E' [_ T']]]]
    end.
    exists v'', w''. split; [ exact E' | ].
    rewrite T'. apply in_or_app. right. left. reflexivity.
Qed.

Lemma bad_shape_ends_session_witness :
  exists (v' : Vars) (w' : World),
    while_true webcam_args true 0%nat
      (mkIterEnv no_faults true [480; 640] 1 (-1) 1 :: []) vars0 world0 =
      Raised (Exception "ValueError") v' w' /\
    frame_count v' = frame_count vars0 + 1 /\
    exit_code v' = exit_code vars0 /\
    trace w' = trace world0 ++ [EvRead 0%nat true; EvPerfCounter 1;
                                EvDrawText; EvShape] /\
    exists (v'' : Vars) (w'' : World),
      teardown (Some 0%nat) (calm_fin 2) (Exc (Exception "ValueError")) v' w' =
        (Exited 2, v'', w'') /\
      In (EvLog ERROR (MsgUnexpected (Exception "ValueError"))) (trace w'').
Proof.
  apply (bad_shape_ends_session webcam_args true 0%nat
           (mkIterEnv no_faults true [480; 640] 1 (-1) 1)
           [] vars0 world0 (calm_fin 2)).
  - reflexivity.
  - intros k. reflexivity.
  - discriminate.
  - intros k. reflexivity.
Defined.

(** ** Sessions from the command line to the exit *)

Lemma while_true_app (args : Args) (show : bool) (cap : capture)
    (s1 s2 : list IterEnv) :
  forall (v : Vars) (w : World),
    while_true args show cap (s1 ++ s2) v w =
    match while_true args show cap s1 v w with
    | Running v' w' => while_true args show cap s2 v' w'
    | o => o
    end.
Proof.
  induction s1 as [ | e rest IH ]; intros v w.
  - reflexivity.
  - cbn [app while_true].
    destruct (loop_body args show cap e v (enter (iter_faults e) w))
      as [[[ [ | ] | x ] v1] w1]; [ apply IH | reflexivity | reflexivity ].
Qed.

(** The world after a long run, put in normal form from the inside. *)
Ltac world_done :=
  cbv beta iota delta [next_call record enter new_capture world0
                       faults tick captures trace];
  rewrite <- ?app_assoc; cbn [app]; reflexivity.

Ltac opened_everywhere H :=
  try match goal with
      | N : negb (is_opened _ _) = true |- _ =>
          rewrite H in N; discriminate N
      end.

(** The camera, or a file with a path, on a platform where the capture
    opens and nothing raises: one capture, asked twice for its size. *)
Lemma acquire_opens (args : Args) (oe : OpenEnv) (arg : capture_arg) :
  (source args = "webcam"%string /\ arg = Device0) \/
  (source args = "file"%string /\
   exists p : string, nonempty (path args) = Some p /\ arg = Path p) ->
  fault_free (open_faults oe) ->
  (forall n : nat, is_opened oe n = true) ->
  acquire args oe tt (enter (open_faults oe) world0) =
  (Val (inr 0%nat), tt,
   mkWorld (open_faults oe) 6 1
     [EvVideoCapture arg 0%nat; EvIsOpened 0%nat;
      EvGet 0%nat CAP_PROP_FRAME_WIDTH; EvGet 0%nat CAP_PROP_FRAME_HEIGHT;
      EvLog INFO (MsgConnected (source args) (nonempty (path args)));
      EvLog INFO (MsgResolution (py_int (get_prop oe 2))
                                (py_int (get_prop oe 3)))]).
Proof.
  intros Hsrc Hf Hopen. apply wp_result. unfold_open.
  destruct Hsrc as [[Hs Ha] | [Hs [p [Hp Ha]]]]; subst arg; rewrite Hs.
  - cbn [String.eqb Ascii.eqb Bool.eqb].
    wp_run; opened_everywhere Hopen; clear Hopen;
      try no_fault; try discriminate; world_done.
  - cbn [String.eqb Ascii.eqb Bool.eqb]. rewrite Hp.
    wp_run; opened_everywhere Hopen; clear Hopen;
      try no_fault; try discriminate; world_done.
Qed.

Lemma all_delivered_counter (oks : list IterEnv) :
  Forall delivered_plain oks -> fold_left counter_step oks 0 = 0.
Proof.
  intros H. destruct oks as [ | e rest ]; [ reflexivity | ].
  apply (delivered_stays_below (e :: rest) H 0); [ reflexivity | discriminate ].
Qed.

(** The frames of a session whose loop ran through [oks] first. *)
Lemma session_plays (args : Args) (env : Env) (arg : capture_arg)
    (oks rest : list IterEnv) :
  (source args = "webcam"%string /\ arg = Device0) \/
  (source args = "file"%string /\
   exists p : string, nonempty (path args) = Some p /\ arg = Path p) ->
  fault_free (open_faults (open_env env)) ->
  (forall n : nat, is_opened (open_env env) n = true) ->
  fault_free (start_faults (start_env env)) ->
  script env = oks ++ rest ->
  Forall delivered_plain oks ->
  exists (v1 : Vars) (w1 w_a w_s : World) (v0 : Vars),
    acquire args (open_env env) tt (enter (open_faults (open_env env)) world0) =
      (Val (inr 0%nat), tt, w_a) /\
    startup (start_env env) tt (enter (start_faults (start_env env)) w_a) =
      (Val v0, tt, w_s) /\
    while_true args (resolved_show args) 0%nat (script env) v0 w_s =
      while_true args (resolved_show args) 0%nat rest v1 w1 /\
    frame_count v1 = Z.of_nat (length oks) /\
    consecutive_failures v1 = 0 /\
    start_time v1 = start_clock (start_env env) /\
    exit_code v1 = EXIT_OK.
Proof.
  intros Hsrc Hfo Hopen Hfs Hscript Hoks.
  pose proof (acquire_opens args (open_env env) arg Hsrc Hfo Hopen) as A.
  match type of A with _ = (_, _, ?wa) => set (w_a := wa) in * end.
  pose proof (startup_runs (start_env env) w_a Hfs) as B.
  match type of B with _ = (Val ?v, _, ?ws) => set (v0 := v) in *; set (w_s := ws) in * end.
  destruct (delivered_stays_below oks Hoks 0) as [Bl [D _]]; [ reflexivity | ].
  destruct (steady_run args (resolved_show args) 0%nat oks v0 w_s
              (delivered_is_steady args oks Hoks) Bl)
    as [v1 [w1 [E [F [C [S0 [X _]]]]]]].
  exists v1, w1, w_a, w_s, v0.
  split; [ exact A | ]. split; [ exact B | ].
  split; [ rewrite Hscript, while_true_app, E; reflexivity | ].
  split; [ rewrite F, D; reflexivity | ].
  split; [ rewrite C; apply all_delivered_counter; exact Hoks | ].
  split; [ rewrite S0; reflexivity | rewrite X; reflexivity ].
Qed.

(** X8: a session on a file that opens, whose command line parses: after
    N delivered frames and the first failed read, [main] exits with status
    0; the trace ends with the end-of-file report, the release of the
    capture, the destruction of the windows and the summary, which
    carries N frames. *)
Theorem file_plays_to_the_end (argv : list token) (args : Args) (env : Env)
    (p : string) (oks : list IterEnv) (eof : IterEnv) (rest : list IterEnv) :
  parse_args argv = Parsed args ->
  source args = "file"%string ->
  path args = Some p ->
  p <> ""%string ->
  fault_free (open_faults (open_env env)) ->
  (forall n : nat, is_opened (open_env env) n = true) ->
  fault_free (start_faults (start_env env)) ->
  script env = oks ++ eof :: rest ->
  Forall delivered_plain oks ->
  not_delivered eof ->
  fault_free (fin_faults (fin_env env)) ->
  let frames := Z.of_nat (length oks) in
  let elapsed := (fin_clock (fin_env env) - start_clock (start_env env))%Q in
  exists (before : list event) (w' : World),
    main argv env = (Some (Exited 0), w') /\
    trace w' =
      before ++ [EvRead 0%nat false; EvLog INFO MsgEndOfFile;
                 EvRelease 0%nat; EvDestroyAllWindows;
                 EvPerfCounter (fin_clock (fin_env env));
                 EvLog INFO (MsgClosed frames elapsed
                                       (average_fps frames elapsed))].
Proof.
  intros P Hs Hp Hne Hfo Hopen Hfs Hscript Hoks Heof Hff frames elapsed.
  assert (Hn : nonempty (path args) = Some p).
  { rewrite Hp. cbn [nonempty]. apply String.eqb_neq in Hne.
    rewrite Hne. reflexivity. }
  destruct (session_plays args env (Path p) oks (eof :: rest))
    as [v1 [w1 [w_a [w_s [v0 [A [B [L [F [_ [S0 _]]]]]]]]]]]; try assumption.
  { right. split; [ exact Hs | ]. exists p. split; [ exact Hn | reflexivity ]. }
  rewrite (main_parsed argv args env P).
  rewrite (main_after_startup args env 0%nat w_a v0 w_s A B).
  rewrite L. cbn [while_true].
  rewrite (failed_read_on_file args (resolved_show args) 0%nat eof v1 w1 Heof
             (source_eq _ _ Hs)).
  match goal with
  | |- context [ teardown _ _ _ ?v2 ?w2 ] =>
      destruct (teardown_runs 0%nat (fin_env env) (Val tt) v2 w2 Hff)
        as [v3 [w3 [E [_ T]]]]
  end.
  rewrite E. exists (trace w1), w3.
  split; [ reflexivity | ].
  rewrite T. cbn [trace app]. unfold finally_events.
  cbn [frame_count start_time set_exit_code set_consecutive_failures].
  rewrite F, S0. rewrite <- app_assoc. reflexivity.
Qed.

Lemma file_plays_to_the_end_witness :
  exists (before : list event) (w' : World),
    main [TSource "file"; TPath "clip.mp4"] two_frame_session =
      (Some (Exited 0), w') /\
    trace w' =
      before ++ [EvRead 0%nat false; EvLog INFO MsgEndOfFile;
                 EvRelease 0%nat; EvDestroyAllWindows;
                 EvPerfCounter 20;
                 EvLog INFO (MsgClosed (Z.of_nat 2) (20 - 10)%Q
                                       (average_fps (Z.of_nat 2) (20 - 10)%Q))].
Proof.
  apply (file_plays_to_the_end [TSource "file"; TPath "clip.mp4"] file_args
           two_frame_session "clip.mp4" [good_iter 11; good_iter 12]
           failing_iter []).
  - reflexivity.
  - reflexivity.
  - reflexivity.
  - discriminate.
  - intros k. reflexivity.
  - intros n. reflexivity.
  - intros k. reflexivity.
  - reflexivity.
  - repeat constructor; apply good_iter_delivered.
  - exact failing_iter_not_delivered.
  - intros k. reflexivity.
Defined.

(** X9: a session on the camera: after N delivered frames, 30 failed
    reads in a row make [main] exit with status 2; the trace ends with
    the report of the failures, the release, the destruction of the
    windows and the summary, which carries N frames. *)
Theorem lost_camera_exits_with_2 (argv : list token) (args : Args) (env : Env)
    (oks fails rest : list IterEnv) :
  parse_args argv = Parsed args ->
  source args = "webcam"%string ->
  fault_free (open_faults (open_env env)) ->
  (forall n : nat, is_opened (open_env env) n = true) ->
  fault_free (start_faults (start_env env)) ->
  script env = oks ++ fails ++ rest ->
  Forall delivered_plain oks ->
  length fails = 30%nat ->
  Forall not_delivered fails ->
  fault_free (fin_faults (fin_env env)) ->
  let frames := Z.of_nat (length oks) in
  let elapsed := (fin_clock (fin_env env) - start_clock (start_env env))%Q in
  exists (before : list event) (w' : World),
    main argv env = (Some (Exited 2), w') /\
    trace w' =
      before ++ [EvRead 0%nat false; EvLog ERROR MsgReadFailures;
                 EvRelease 0%nat; EvDestroyAllWindows;
                 EvPerfCounter (fin_clock (fin_env env));
                 EvLog INFO (MsgClosed frames elapsed
                                       (average_fps frames elapsed))].
Proof.
  intros P Hs Hfo Hopen Hfs Hscript Hoks Hlen Hfails Hff frames elapsed.
  destruct (session_plays args env Device0 oks (fails ++ rest))
    as [v1 [w1 [w_a [w_s [v0 [A [B [L [F [C [S0 _]]]]]]]]]]]; try assumption.
  { left. split; [ exact Hs | reflexivity ]. }
  rewrite (main_parsed argv args env P).
  rewrite (main_after_startup args env 0%nat w_a v0 w_s A B).
  rewrite L.
  destruct (ceiling_reached args (resolved_show args) 0%nat fails rest v1 w1)
    as [w2 [E2 [T2 _]]].
  { rewrite Hs. reflexivity. }
  { exact Hfails. }
  { intros N. subst fails. discriminate Hlen. }
  { rewrite C, Hlen. reflexivity. }
  rewrite E2.
  match goal with
  | |- context [ teardown _ _ _ ?v2 w2 ] =>
      destruct (teardown_runs 0%nat (fin_env env) (Val tt) v2 w2 Hff)
        as [v3 [w3 [E [_ T]]]]
  end.
  rewrite E. exists (trace w1 ++ backoffs 0%nat (length fails - 1)), w3.
  split; [ reflexivity | ].
  rewrite T, T2. cbn [app]. unfold finally_events.
  cbn [frame_count start_time set_exit_code set_consecutive_failures].
  rewrite F, S0. rewrite <- !app_assoc. reflexivity.
Qed.

Lemma lost_camera_exits_with_2_witness :
  exists (before : list event) (w' : World),
    main [TNoFps]
         (mkEnv calm_open (mkStartEnv no_faults 10)
                ([good_iter 11] ++ repeat failing_iter 30 ++ [])
                (calm_fin 20)) =
      (Some (Exited 2), w') /\
    trace w' =
      before ++ [EvRead 0%nat false; EvLog ERROR MsgReadFailures;
                 EvRelease 0%nat; EvDestroyAllWindows;
                 EvPerfCounter 20;
                 EvLog INFO (MsgClosed (Z.of_nat 1) (20 - 10)%Q
                                       (average_fps (Z.of_nat 1) (20 - 10)%Q))].
Proof.
  apply (lost_camera_exits_with_2 [TNoFps]
           (mkArgs "webcam" None "INFO" (Some false))
           (mkEnv calm_open (mkStartEnv no_faults 10)
                  ([good_iter 11] ++ repeat failing_iter 30 ++ [])
                  (calm_fin 20))
           [good_iter 11] (repeat failing_iter 30) []).
  - reflexivity.
  - reflexivity.
  - intros k. reflexivity.
  - intros n. reflexivity.
  - intros k. reflexivity.
  - reflexivity.
  - repeat constructor; apply good_iter_delivered.
  - apply repeat_length.
  - apply repeat_failing.
  - intros k. reflexivity.
Defined.

(** The network source on which no capture opens: the three attempts,
    then the report of [main]. *)
Lemma acquire_unreachable (args : Args) (oe : OpenEnv) (p : string) :
  source args = "rtsp"%string ->
  nonempty (path args) = Some p ->
  fault_free (open_faults oe) ->
  (forall n : nat, is_opened oe n = false) ->
  acquire args oe tt (enter (open_faults oe) world0) =
  (Val (inl EXIT_INIT_FAIL), tt,
   mkWorld (open_faults oe) 18 3
     [EvLog DEBUG (MsgRtspAttempt 1);
      EvVideoCapture (Path p) 0%nat; EvIsOpened 0%nat; EvRelease 0%nat;
      EvLog DEBUG MsgRtspRetry; EvSleep 2;
      EvLog DEBUG (MsgRtspAttempt 2);
      EvVideoCapture (Path p) 1%nat; EvIsOpened 1%nat; EvRelease 1%nat;
      EvLog DEBUG MsgRtspRetry; EvSleep 2;
      EvLog DEBUG (MsgRtspAttempt 3);
      EvVideoCapture (Path p) 2%nat; EvIsOpened 2%nat; EvRelease 2%nat;
      EvLog ERROR MsgRtspAllFailed;
      EvLog ERROR MsgUnableToStart]).
Proof.
  intros Hs Hp Hf Hclosed. apply wp_result. unfold_open.
  rewrite Hs. cbn [String.eqb Ascii.eqb Bool.eqb]. rewrite Hp.
  wp_run.
  all: try match goal with
           | N : is_opened _ _ = true |- _ =>
               rewrite Hclosed in N; discriminate N
           end.
  all: clear Hclosed; try no_fault; try discriminate.
  world_done.
Qed.

(** X10: a session on a network stream that never opens, whose command
    line parses: [main] exits with status 1 after exactly three captures
    were created and released and two sleeps of 2 s were taken; no window
    is opened and no frame is read. *)
Theorem unreachable_stream_exits_with_1 (argv : list token) (args : Args)
    (env : Env) (p : string) :
  parse_args argv = Parsed args ->
  source args = "rtsp"%string ->
  path args = Some p ->
  p <> ""%string ->
  fault_free (open_faults (open_env env)) ->
  (forall n : nat, is_opened (open_env env) n = false) ->
  exists w' : World,
    main argv env = (Some (Exited 1), w') /\
    occurrences is_open (trace w') = 3%nat /\
    occurrences is_any_release (trace w') = 3%nat /\
    occurrences is_sleep (trace w') = 2%nat /\
    ~ In EvNamedWindow (trace w') /\
    (forall (c : capture) (ret : bool), ~ In (EvRead c ret) (trace w')) /\
    exists before : list event,
      trace w' = before ++ [EvLog ERROR MsgRtspAllFailed;
                            EvLog ERROR MsgUnableToStart].
Proof.
  intros P Hs Hp Hne Hf Hclosed.
  assert (Hn : nonempty (path args) = Some p).
  { rewrite Hp. cbn [nonempty]. apply String.eqb_neq in Hne.
    rewrite Hne. reflexivity. }
  rewrite (main_parsed argv args env P). unfold main_body.
  rewrite (acquire_unreachable args (open_env env) p Hs Hn Hf Hclosed).
  eexists. split; [ reflexivity | ]. cbn [trace].
  split; [ reflexivity | ]. split; [ reflexivity | ].
  split; [ reflexivity | ].
  split.
  { cbn [In]. intros H.
    repeat (destruct H as [H | H]; [ discriminate H | ]). exact H. }
  split.
  { intros c ret. cbn [In]. intros H.
    repeat (destruct H as [H | H]; [ discriminate H | ]). exact H. }
  eexists
    [EvLog DEBUG (MsgRtspAttempt 1);
     EvVideoCapture (Path p) 0%nat; EvIsOpened 0%nat; EvRelease 0%nat;
     EvLog DEBUG MsgRtspRetry; EvSleep 2;
     EvLog DEBUG (MsgRtspAttempt 2);
     EvVideoCapture (Path p) 1%nat; EvIsOpened 1%nat; EvRelease 1%nat;
     EvLog DEBUG MsgRtspRetry; EvSleep 2;
     EvLog DEBUG (MsgRtspAttempt 3);
     EvVideoCapture (Path p) 2%nat; EvIsOpened 2%nat; EvRelease 2%nat].
  reflexivity.
Qed.

Lemma unreachable_stream_exits_with_1_witness :
  exists w' : World,
    main [TSource "rtsp"; TPath "rtsp://camera/stream"]
         (mkEnv (mkOpenEnv no_faults (fun _ => false) (fun _ => 0%Q))
                (mkStartEnv no_faults 10) [] (calm_fin 20)) =
      (Some (Exited 1), w') /\
    occurrences is_open (trace w') = 3%nat /\
    occurrences is_any_release (trace w') = 3%nat /\
    occurrences is_sleep (trace w') = 2%nat /\
    ~ In EvNamedWindow (trace w') /\
    (forall (c : capture) (ret : bool), ~ In (EvRead c ret) (trace w')) /\
    exists before : list event,
      trace w' = before ++ [EvLog ERROR MsgRtspAllFailed;
                            EvLog ERROR MsgUnableToStart].
Proof.
  apply (unreachable_stream_exits_with_1
           [TSource "rtsp"; TPath "rtsp://camera/stream"] rtsp_args
           (mkEnv (mkOpenEnv no_faults (fun _ => false) (fun _ => 0%Q))
                  (mkStartEnv no_faults 10) [] (calm_fin 20))
           "rtsp://camera/stream").
  - reflexivity.
  - reflexivity.
  - reflexivity.
  - discriminate.
  - intros k. reflexivity.
  - intros n. reflexivity.
Defined.

(** ** What [open_capture] does on every platform *)

Ltac count_events :=
  eexists; split;
  [ first [ rewrite <- ?app_assoc; cbn [app]; reflexivity
          | symmetry; apply app_nil_r ] | ].

(** X11: whatever the platform answers or raises, [open_capture] creates
    at most 3 captures and sleeps at most twice, each time for 2 s, and
    only after releasing a capture; on a source other than the network
    stream it creates at most one capture and never sleeps or releases:
    there is no retry for the camera or a file. *)
Theorem open_attempts_are_bounded (oe : OpenEnv) (source : string)
    (path : option string) (w : World)
    (r : Res (option capture)) (w' : World) :
  open_capture oe source path tt (enter (open_faults oe) w) = (r, tt, w') ->
  exists evs : list event,
    trace w' = trace w ++ evs /\
    (occurrences is_open evs <= 3)%nat /\
    (occurrences is_sleep evs <= 2)%nat /\
    (occurrences is_sleep evs <= occurrences is_any_release evs)%nat /\
    (occurrences is_any_release evs <= occurrences is_open evs)%nat /\
    (forall secs : Q, In (EvSleep secs) evs -> secs = RTSP_RETRY_DELAY) /\
    (source <> "rtsp"%string ->
     (occurrences is_open evs <= 1)%nat /\
     occurrences is_sleep evs = 0%nat /\
     occurrences is_any_release evs = 0%nat).
Proof.
  intros E.
  pose proof (wp_elim (open_capture oe source path)
    (fun _ _ w' =>
       exists evs : list event,
         trace w' = trace w ++ evs /\
         (occurrences is_open evs <= 3)%nat /\
         (occurrences is_sleep evs <= 2)%nat /\
         (occurrences is_sleep evs <= occurrences is_any_release evs)%nat /\
         (occurrences is_any_release evs <= occurrences is_open evs)%nat /\
         (forall secs : Q, In (EvSleep secs) evs -> secs = RTSP_RETRY_DELAY) /\
         (source <> "rtsp"%string ->
          (occurrences is_open evs <= 1)%nat /\
          occurrences is_sleep evs = 0%nat /\
          occurrences is_any_release evs = 0%nat))
    tt (enter (open_faults oe) w)) as G.
  rewrite E in G. cbn [fst snd] in G. apply G. clear G E.
  set (delay := RTSP_RETRY_DELAY).
  unfold_open. fold delay. wp_run.
  all: count_events.
  all: unfold occurrences; cbn [filter length is_open is_sleep is_any_release].
  all: repeat (split; [ lia | ]).
  all: split;
    [ intros secs Hin; cbn [In] in Hin;
      repeat (destruct Hin as [Hin | Hin];
              [ try discriminate Hin; try (inversion Hin; reflexivity) | ]);
      try contradiction
    | ].
  all: intros Hsrc; try (repeat split; lia).
  all: exfalso; apply Hsrc; apply String.eqb_eq; assumption.
Qed.

Lemma open_attempts_are_bounded_witness :
  exists evs : list event,
    trace (snd (open_capture calm_open "rtsp" (Some "u"%string) tt
                  (enter (open_faults calm_open) world0))) =
      trace world0 ++ evs /\
    (occurrences is_open evs <= 3)%nat /\
    (occurrences is_sleep evs <= 2)%nat /\
    (occurrences is_sleep evs <= occurrences is_any_release evs)%nat /\
    (occurrences is_any_release evs <= occurrences is_open evs)%nat /\
    (forall secs : Q, In (EvSleep secs) evs -> secs = RTSP_RETRY_DELAY) /\
    ("rtsp"%string <> "rtsp"%string ->
     (occurrences is_open evs <= 1)%nat /\
     occurrences is_sleep evs = 0%nat /\
     occurrences is_any_release evs = 0%nat).
Proof.
  apply (open_attempts_are_bounded calm_open "rtsp" (Some "u"%string) world0
           (fst (fst (open_capture calm_open "rtsp" (Some "u"%string) tt
                        (enter (open_faults calm_open) world0))))).
  vm_compute. reflexivity.
Defined.
